(** * Forklift lift controller: a shallow embedding of [main.cpp]

    The program is a PLC-style scan loop around three components: a
    [FaultManager] holding one latched fault, the [LiftController] state
    machine and the [LiftPlant] integrator.  Every C++ [struct] becomes a
    record, every [enum class] an inductive type, and every member function
    that mutates [*this] (or a reference argument) a function returning the
    new value.

    Numbers.  The C++ [double] has two models here.  The module [B64] is
    the binary64 model of [LiftPlant::step]: Rocq's primitive floats, whose
    operations round as the hardware does and have infinities and NaN.  The
    module [Dbl] is the exact model used for the controller and the console
    loop: values are rationals ([Q], kept in lowest terms by the reducing
    operations of [Qreduction]), so there is no rounding, no infinity and no
    NaN in it; the controller only compares doubles with constants and
    stores constants, and what is stated of the plant on this model is
    stated where it does not depend on rounding.  The C++ [int] of
    [motorDir] and of the fault priorities is [Z]; only the values -1, 0, 1,
    10, 20 and 30 occur, so no wrap-around arises; the poll counter of
    [main] is an [int] that is incremented without bound, and its increment
    is written with its wrap-around ([int_incr]).

    Left out: [printHelp], the parsing of a typed line into a command
    ([std::stod] included), the status print and the sleep of [main]. *)

From Stdlib Require Import ZArith QArith Qabs Qminmax Qreduction.
From Stdlib Require Import Bool List Lia Lqa.
From Stdlib Require Import Permutation.
From Stdlib Require String.
From Stdlib Require PrimFloat FloatOps FloatAxioms SpecFloat.
Import ListNotations.

Local Open Scope Z_scope.

(** ** Arithmetic on [double] *)

Module Dbl.

Definition double : Type := Q.

Definition add (x y : double) : double := Qplus' x y.
Definition sub (x y : double) : double := Qminus' x y.
Definition mul (x y : double) : double := Qmult' x y.
Definition neg (x : double) : double := Qopp x.

(** [x < y], [x > y], [x <= y], [x >= y] as the C++ operators: booleans. *)
Definition ltb (x y : double) : bool :=
  match Qcompare x y with Lt => true | _ => false end.
Definition gtb (x y : double) : bool := ltb y x.
Definition leb (x y : double) : bool := negb (ltb y x).
Definition geb (x y : double) : bool := negb (ltb x y).

(** [std::abs]. *)
Definition abs (x : double) : double := Qabs x.

(** [std::clamp(v, lo, hi)] as the standard library implements it:
    [(v < lo) ? lo : (hi < v) ? hi : v]. *)
Definition clamp (v lo hi : double) : double :=
  if ltb v lo then lo else if ltb hi v then hi else v.

End Dbl.

(** ** PLC-style scan data *)

Record Inputs : Type := mkInputs {
  cmdUp : bool;
  cmdDown : bool;
  cmdHold : bool;
  estop : bool;
  resetFault : bool;
  topLimit : bool;
  bottomLimit : bool;
  loadKg : Dbl.double
}.

(** [Inputs in{}]: the default member initialisers. *)
Definition Inputs_default : Inputs :=
  mkInputs false false false false false false true 0%Q.

Record Outputs : Type := mkOutputs {
  motorEnable : bool;
  motorDir : Z;
  brakeEngaged : bool;
  faultLamp : bool
}.

(** [Outputs out{}]. *)
Definition Outputs_default : Outputs := mkOutputs false 0 true false.

(** ** Faults with explicit priority *)

Inductive FaultCode : Type :=
  | FNone
  | LimitViolation
  | Overload
  | EmergencyStop.

(** [static_cast<int>(f)]: the enumerator values. *)
Definition faultPriority (f : FaultCode) : Z :=
  match f with
  | FNone => 0
  | LimitViolation => 10
  | Overload => 20
  | EmergencyStop => 30
  end.

Definition FaultCode_eqb (a b : FaultCode) : bool :=
  match a, b with
  | FNone, FNone | LimitViolation, LimitViolation
  | Overload, Overload | EmergencyStop, EmergencyStop => true
  | _, _ => false
  end.

Record FaultManager : Type := mkFaultManager { latched : FaultCode }.

Definition FaultManager_default : FaultManager := mkFaultManager FNone.

Definition clear (fm : FaultManager) : FaultManager := mkFaultManager FNone.

Definition latch (f : FaultCode) (fm : FaultManager) : FaultManager :=
  if faultPriority f >? faultPriority (latched fm)
  then mkFaultManager f
  else fm.

Definition hasFault (fm : FaultManager) : bool :=
  negb (FaultCode_eqb (latched fm) FNone).

(** A sequence of [latch] calls, first call first. *)
Definition latch_all (fs : list FaultCode) (fm : FaultManager) : FaultManager :=
  fold_left (fun m f => latch f m) fs fm.

(** ** Lift model and PLC state machine *)

Inductive LiftState : Type :=
  | Holding
  | Lifting
  | Lowering
  | Faulted.

Definition LiftState_eqb (a b : LiftState) : bool :=
  match a, b with
  | Holding, Holding | Lifting, Lifting
  | Lowering, Lowering | Faulted, Faulted => true
  | _, _ => false
  end.

Record LiftPlant : Type := mkLiftPlant {
  position : Dbl.double;
  velocity : Dbl.double;
  targetVel : Dbl.double
}.

(** [LiftPlant plant{}]. *)
Definition LiftPlant_default : LiftPlant := mkLiftPlant 0%Q 0%Q 0%Q.

Definition accel : Dbl.double := 3%Q.

(** [LiftPlant::step]: the three assignments to [velocity] and the two to
    [position], in source order. *)
Definition step (dt : Dbl.double) (p : LiftPlant) : LiftPlant :=
  let dv := Dbl.sub (targetVel p) (velocity p) in
  let maxDv := Dbl.mul accel dt in
  let dv := Dbl.clamp dv (Dbl.neg maxDv) maxDv in
  let velocity1 := Dbl.add (velocity p) dv in
  let position1 := Dbl.add (position p) (Dbl.mul velocity1 dt) in
  let position2 := Dbl.clamp position1 0%Q 1%Q in
  let velocity2 :=
    if Dbl.leb position2 0%Q && Dbl.ltb velocity1 0%Q then 0%Q else velocity1 in
  let velocity3 :=
    if Dbl.geb position2 1%Q && Dbl.gtb velocity2 0%Q then 0%Q else velocity2 in
  mkLiftPlant position2 velocity3 (targetVel p).

(** The velocity right after the acceleration update ([velocity += dv]),
    before the end-of-travel test: the [velocity1] of [step]. *)
Definition velocity_after_accel (dt : Dbl.double) (p : LiftPlant) : Dbl.double :=
  let dv := Dbl.sub (targetVel p) (velocity p) in
  let maxDv := Dbl.mul accel dt in
  Dbl.add (velocity p) (Dbl.clamp dv (Dbl.neg maxDv) maxDv).

(** Tunables of [LiftController]: [const] members with fixed initialisers. *)
Definition maxLoadKg : Dbl.double := 1200%Q.
Definition liftSpeed : Dbl.double := (35 # 100)%Q.
Definition lowerSpeed : Dbl.double := (30 # 100)%Q.
Definition safeStopSpeedEps : Dbl.double := (1 # 100)%Q.

Record LiftController : Type := mkLiftController {
  state : LiftState;
  faults : FaultManager;
  lastTopLimit : bool;
  lastBottomLimit : bool
}.

(** [LiftController ctrl{}]. *)
Definition LiftController_default : LiftController :=
  mkLiftController Holding FaultManager_default false true.

(** [if (b) faults.latch(f);] *)
Definition latch_if (b : bool) (f : FaultCode) (fm : FaultManager) : FaultManager :=
  if b then latch f fm else fm.

(** Step 1 of [update]: the fault manager after the latching statements,
    evaluated against the state left by the previous scan. *)
Definition latch_faults (c : LiftController) (inp : Inputs) : FaultManager :=
  let fm := faults c in
  let fm := latch_if (estop inp) EmergencyStop fm in
  let fm := latch_if (Dbl.gtb (loadKg inp) maxLoadKg) Overload fm in
  if topLimit inp && bottomLimit inp then latch LimitViolation fm
  else
    let fm := latch_if (LiftState_eqb (state c) Lifting && topLimit inp)
                       LimitViolation fm in
    let fm := latch_if (LiftState_eqb (state c) Lowering && bottomLimit inp)
                       LimitViolation fm in
    let fm := latch_if (cmdUp inp && topLimit inp) LimitViolation fm in
    latch_if (cmdDown inp && bottomLimit inp) LimitViolation fm.

(** Step 2: the condition under which [faults.clear()] is called. *)
Definition reset_gate (inp : Inputs) (plant : LiftPlant) : bool :=
  resetFault inp && negb (estop inp)
  && Dbl.ltb (Dbl.abs (velocity plant)) safeStopSpeedEps.

Definition allow_reset (inp : Inputs) (plant : LiftPlant) (fm : FaultManager)
  : FaultManager :=
  if reset_gate inp plant then clear fm else fm.

(** Step 3: the state assigned by the transition block. *)
Definition next_state (fm : FaultManager) (inp : Inputs) : LiftState :=
  if hasFault fm then Faulted
  else
    let up := cmdUp inp in
    let down := cmdDown inp in
    if up && negb down && negb (topLimit inp) then Lifting
    else if down && negb up && negb (bottomLimit inp) then Lowering
    else Holding.

(** Step 4: the six assignment blocks of the [switch], and which one runs. *)
Inductive OutputBlock : Type :=
  | BlockFaulted
  | BlockHolding
  | BlockLiftingAtLimit
  | BlockLiftingRun
  | BlockLoweringAtLimit
  | BlockLoweringRun.

Definition select_block (s : LiftState) (inp : Inputs) : OutputBlock :=
  match s with
  | Faulted => BlockFaulted
  | Holding => BlockHolding
  | Lifting => if topLimit inp then BlockLiftingAtLimit else BlockLiftingRun
  | Lowering => if bottomLimit inp then BlockLoweringAtLimit else BlockLoweringRun
  end.

(** What a block writes: [plant.targetVel] and the fields of [out]. *)
Definition run_block (b : OutputBlock) : Dbl.double * Outputs :=
  match b with
  | BlockFaulted => (0%Q, mkOutputs false 0 true true)
  | BlockHolding => (0%Q, mkOutputs false 0 true false)
  | BlockLiftingAtLimit => (0%Q, mkOutputs false 0 true false)
  | BlockLiftingRun => (liftSpeed, mkOutputs true 1 false false)
  | BlockLoweringAtLimit => (0%Q, mkOutputs false 0 true false)
  | BlockLoweringRun => (Dbl.neg lowerSpeed, mkOutputs true (-1) false false)
  end.

(** [LiftController::update]: the returned [Outputs], the controller after
    the call and the plant after the call ([targetVel] written). *)
Definition update (dt : Dbl.double) (inp : Inputs) (c : LiftController)
  (plant : LiftPlant) : Outputs * LiftController * LiftPlant :=
  let fm := latch_faults c inp in
  let fm := allow_reset inp plant fm in
  let st := next_state fm inp in
  let '(tv, out) := run_block (select_block st inp) in
  (out,
   mkLiftController st fm (topLimit inp) (bottomLimit inp),
   mkLiftPlant (position plant) (velocity plant) tv).

(** The block of the [switch] that a call executes. *)
Definition update_block (inp : Inputs) (c : LiftController) (plant : LiftPlant)
  : OutputBlock :=
  select_block (next_state (allow_reset inp plant (latch_faults c inp)) inp) inp.

Definition out_of (r : Outputs * LiftController * LiftPlant) : Outputs :=
  fst (fst r).
Definition ctrl_of (r : Outputs * LiftController * LiftPlant) : LiftController :=
  snd (fst r).
Definition plant_of (r : Outputs * LiftController * LiftPlant) : LiftPlant :=
  snd r.

(** ** Console simulation: the loop of [main]

    A line read from the console is kept in tokenised form; [LineLoad] carries
    the result of [std::stod] on the rest of the line ([None] when it throws).
    The status print and the sleep at the end of each cycle have no effect on
    the simulated values and are left out. *)

Inductive Line : Type :=
  | LineQuit
  | LineUp
  | LineDown
  | LineHold
  | LineStop
  | LineEstop
  | LineReset
  | LineLoad (kg : option Dbl.double)
  | LineHelp
  | LineOther.

(** [inputPoll++] on a C++ [int].  Overflow of a signed [int] is undefined
    in C++; the model takes what two's-complement targets do and wraps from
    [INT_MAX] to [INT_MIN].  The test [inputPoll % 25 == 0] is written with
    [mod]: the truncating [%] of C++ and [mod] are zero for the same
    integers. *)
Definition INT_MAX : Z := 2147483647.
Definition INT_MIN : Z := -2147483648.
Definition int_incr (x : Z) : Z := if x =? INT_MAX then INT_MIN else x + 1.

Record Sim : Type := mkSim {
  sim_plant : LiftPlant;
  sim_ctrl : LiftController;
  sim_in : Inputs;
  sim_out : Outputs;
  sim_quit : bool;
  inputPoll : Z
}.

(** The locals of [main] before the loop. *)
Definition Sim_default : Sim :=
  mkSim LiftPlant_default LiftController_default Inputs_default
        Outputs_default false 0.

Definition dt_main : Dbl.double := (2 # 100)%Q.

Definition set_commands (up down hold : bool) (i : Inputs) : Inputs :=
  mkInputs up down hold (estop i) (resetFault i) (topLimit i) (bottomLimit i)
           (loadKg i).

Definition set_estop (b : bool) (i : Inputs) : Inputs :=
  mkInputs (cmdUp i) (cmdDown i) (cmdHold i) b (resetFault i) (topLimit i)
           (bottomLimit i) (loadKg i).

Definition set_resetFault (b : bool) (i : Inputs) : Inputs :=
  mkInputs (cmdUp i) (cmdDown i) (cmdHold i) (estop i) b (topLimit i)
           (bottomLimit i) (loadKg i).

Definition set_loadKg (kg : Dbl.double) (i : Inputs) : Inputs :=
  mkInputs (cmdUp i) (cmdDown i) (cmdHold i) (estop i) (resetFault i)
           (topLimit i) (bottomLimit i) kg.

Definition set_limits (top bottom : bool) (i : Inputs) : Inputs :=
  mkInputs (cmdUp i) (cmdDown i) (cmdHold i) (estop i) (resetFault i)
           top bottom (loadKg i).

Definition set_targetVel (tv : Dbl.double) (p : LiftPlant) : LiftPlant :=
  mkLiftPlant (position p) (velocity p) tv.

(** The [if]/[else if] chain on the line read; the result is the new
    [in] and the new [quit]. *)
Definition apply_line (l : Line) (i : Inputs) (quit : bool) : Inputs * bool :=
  match l with
  | LineQuit => (i, true)
  | LineUp => (set_commands true false false i, quit)
  | LineDown => (set_commands false true false i, quit)
  | LineHold => (set_commands false false true i, quit)
  | LineStop => (set_commands false false false i, quit)
  | LineEstop => (set_estop (negb (estop i)) i, quit)
  | LineReset => (set_resetFault true i, quit)
  | LineLoad (Some kg) => (set_loadKg kg i, quit)
  | LineLoad None => (i, quit)
  | LineHelp => (i, quit)
  | LineOther => (i, quit)
  end.

(** Limit switches derived from the plant position. *)
Definition sense_limits (plant : LiftPlant) (i : Inputs) : Inputs :=
  set_limits (Dbl.geb (position plant) (9999 # 10000)%Q)
             (Dbl.leb (position plant) (1 # 10000)%Q) i.

(** The part of the loop body after the console poll: limit switches,
    controller scan, brake enforcement and plant update. *)
Definition scan (i : Inputs) (c : LiftController) (plant : LiftPlant)
  : Inputs * Outputs * LiftController * LiftPlant :=
  let i := sense_limits plant i in
  let '(out, c, plant) := update dt_main i c plant in
  let plant := if brakeEngaged out then set_targetVel 0%Q plant else plant in
  (i, out, c, step dt_main plant).

(** One iteration of the [while] loop.  [stdin] holds the lines not yet read;
    [std::getline] fails on an empty [stdin]. *)
Definition cycle (stdin : list Line) (s : Sim) : Sim * list Line :=
  let i := set_resetFault false (sim_in s) in
  let '(i, quit, stdin) :=
    if (inputPoll s mod 25 =? 0)
    then match stdin with
         | l :: rest => let '(i, q) := apply_line l i (sim_quit s) in (i, q, rest)
         | [] => (i, sim_quit s, [])
         end
    else (i, sim_quit s, stdin) in
  let '(i, out, c, plant) := scan i (sim_ctrl s) (sim_plant s) in
  (mkSim plant c i out quit (int_incr (inputPoll s)), stdin).

(** The first [n] iterations of the loop (fewer when [quit] is set): the
    simulation after each iteration, oldest first. *)
Fixpoint main_loop (n : nat) (stdin : list Line) (s : Sim) : list Sim :=
  match n with
  | O => []
  | S n' =>
      if sim_quit s then []
      else let '(s', stdin') := cycle stdin s in
           s' :: main_loop n' stdin' s'
  end.

(** A run of scans on an explicit sequence of operator inputs, outside the
    console cadence: the controller state after each scan. *)
Fixpoint scans (ins : list Inputs) (c : LiftController) (plant : LiftPlant)
  : list (LiftController * LiftPlant) :=
  match ins with
  | [] => []
  | i :: rest =>
      let '(_, _, c', plant') := scan i c plant in
      (c', plant') :: scans rest c' plant'
  end.

(** Successive calls of [update], each with the inputs and the plant the
    caller presents on that scan: the results, first call first. *)
Fixpoint updates (dt : Dbl.double) (calls : list (Inputs * LiftPlant))
  (c : LiftController) : list (Outputs * LiftController * LiftPlant) :=
  match calls with
  | [] => []
  | (i, plant) :: rest =>
      let r := update dt i c plant in
      r :: updates dt rest (ctrl_of r)
  end.

(** ** Properties named by the specification, as predicates on the model *)

(** The output exclusivity invariant of the data model. *)
Definition exclusive (out : Outputs) : Prop :=
  (motorEnable out = true <-> motorDir out <> 0) /\
  (motorDir out <> 0 <-> brakeEngaged out = false) /\
  (motorEnable out = true -> motorDir out <> 0 /\ brakeEngaged out = false) /\
  (brakeEngaged out = true -> motorDir out = 0 /\ motorEnable out = false).

(** The three reset conditions of Step 2, as propositions. *)
Definition reset_conditions (inp : Inputs) (plant : LiftPlant) : Prop :=
  resetFault inp = true /\ estop inp = false /\
  (Qabs (velocity plant) < safeStopSpeedEps)%Q.

(** What a scan that ends in [Faulted] commands. *)
Definition faulted_result (r : Outputs * LiftController * LiftPlant) : Prop :=
  state (ctrl_of r) = Faulted /\
  hasFault (faults (ctrl_of r)) = true /\
  motorEnable (out_of r) = false /\
  motorDir (out_of r) = 0 /\
  brakeEngaged (out_of r) = true /\
  faultLamp (out_of r) = true /\
  targetVel (plant_of r) = 0%Q.

(** The limit conditions of Step 1 gathered in one boolean: LimitViolation is
    offered to the fault manager exactly when it holds. *)
Definition limit_condition (s : LiftState) (inp : Inputs) : bool :=
  (topLimit inp && bottomLimit inp)
  || (LiftState_eqb s Lifting && topLimit inp)
  || (LiftState_eqb s Lowering && bottomLimit inp)
  || (cmdUp inp && topLimit inp)
  || (cmdDown inp && bottomLimit inp).


(** ** Scenario A of the specification *)

(** The operator inputs of scenario A: [cmdUp] alone, and no command. *)
Definition up_inputs : Inputs := set_commands true false false Inputs_default.
Definition idle_inputs : Inputs := Inputs_default.

(** The simulation and the unread console lines after [n] iterations. *)
Fixpoint main_after (n : nat) (stdin : list Line) (s : Sim) : Sim * list Line :=
  match n with
  | O => (s, stdin)
  | S n' =>
      if sim_quit s then (s, stdin)
      else let '(s', stdin') := cycle stdin s in main_after n' stdin' s'
  end.

(** Scenario A as the specification words it, on the controller observed
    after each scan of a run that starts in [Holding]: some scans in
    [Lifting], then some in [Holding], the last one with the top limit
    asserted, and LimitViolation never latched. *)
Definition scenario_A_holds (cs : list LiftController) : Prop :=
  (exists a b : nat,
      (0 < a)%nat /\ (0 < b)%nat /\
      map state cs = repeat Lifting a ++ repeat Holding b) /\
  lastTopLimit (last cs LiftController_default) = true /\
  Forall (fun c => latched (faults c) <> LimitViolation) cs.

(** The controllers of a console run in which the operator types [u] once. *)
Definition console_up_run (n : nat) : list LiftController :=
  map sim_ctrl (main_loop n [LineUp] Sim_default).

(** The controllers of a run of [up] scans with [cmdUp] followed by [idle]
    scans without a command. *)
Definition up_then_idle_run (up idle : nat) : list LiftController :=
  map fst (scans (repeat up_inputs up ++ repeat idle_inputs idle)
                 LiftController_default LiftPlant_default).

(** A faulted console simulation with LimitViolation latched, the emergency
    stop released and no load. *)
Definition limit_faulted (s : Sim) : Prop :=
  state (sim_ctrl s) = Faulted /\
  latched (faults (sim_ctrl s)) = LimitViolation /\
  estop (sim_in s) = false /\
  loadKg (sim_in s) = 0%Q.

(** ** Further definitions: repeated plant steps, the console poll, names *)


(** The console poll at the head of the loop body: the reset pulse is
    dropped, and on every 25th iteration one line is read and applied.  The
    result is the new [in], the new [quit] and the lines left unread. *)
Definition console_poll (stdin : list Line) (s : Sim)
  : Inputs * bool * list Line :=
  let i := set_resetFault false (sim_in s) in
  if (inputPoll s mod 25 =? 0)
  then match stdin with
       | l :: rest => let '(i, q) := apply_line l i (sim_quit s) in (i, q, rest)
       | [] => (i, sim_quit s, [])
       end
  else (i, sim_quit s, stdin).

(** At most one of the three operator commands is set. *)
Definition one_command_at_most (i : Inputs) : bool :=
  negb (cmdUp i && cmdDown i) && negb (cmdUp i && cmdHold i)
  && negb (cmdDown i && cmdHold i).

(** The velocity lies between full lowering speed and full lifting speed. *)
Definition speed_in_range (p : LiftPlant) : Prop :=
  (- lowerSpeed <= velocity p <= liftSpeed)%Q.

(** ** Names printed in the status line *)

Module Names.
Import String.
Local Open Scope string_scope.

Definition faultToString (f : FaultCode) : string :=
  match f with
  | FNone => "None"
  | LimitViolation => "LimitViolation"
  | Overload => "Overload"
  | EmergencyStop => "EmergencyStop"
  end.

Definition stateToString (s : LiftState) : string :=
  match s with
  | Holding => "Holding"
  | Lifting => "Lifting"
  | Lowering => "Lowering"
  | Faulted => "Faulted"
  end.

(** The string returned after the [switch], for a value outside the
    enumeration. *)
Definition unknown : string := "Unknown".

End Names.

(** ** The plant in binary64

    [LiftPlant] and [LiftPlant::step] once more, with [double] as the
    binary64 numbers of Rocq's primitive floats: every [+], [-] and [*]
    rounds to nearest even, and comparisons with a NaN are false, as in the
    compiled program.  [x >= y] is written [y <=? x] and [x > y] is written
    [y <? x]. *)

Module B64.
Import PrimFloat.
Local Open Scope float_scope.

(** [std::clamp(v, lo, hi)]: [(v < lo) ? lo : (hi < v) ? hi : v]. *)
Definition clamp (v lo hi : float) : float :=
  if v <? lo then lo else if hi <? v then hi else v.

Record LiftPlant : Type := mkLiftPlant {
  position : float;
  velocity : float;
  targetVel : float
}.

Definition accel : float := 3.

Definition step (dt : float) (p : LiftPlant) : LiftPlant :=
  let dv := targetVel p - velocity p in
  let maxDv := accel * dt in
  let dv := clamp dv (- maxDv) maxDv in
  let velocity1 := velocity p + dv in
  let position1 := position p + velocity1 * dt in
  let position2 := clamp position1 0 1 in
  let velocity2 :=
    if (position2 <=? 0) && (velocity1 <? 0) then 0 else velocity1 in
  let velocity3 :=
    if (1 <=? position2) && (0 <? velocity2) then 0 else velocity2 in
  mkLiftPlant position2 velocity3 (targetVel p).

(** The velocity right after [velocity += dv]: the [velocity1] of [step]. *)
Definition velocity_after_accel (dt : float) (p : LiftPlant) : float :=
  let dv := targetVel p - velocity p in
  let maxDv := accel * dt in
  velocity p + clamp dv (- maxDv) maxDv.

(** The rational number a finite binary64 number is: its mantissa times two
    to its exponent, with its sign.  (Zero for the zeros; infinities and NaN,
    which are no numbers, are sent to zero too.) *)
Definition exact (f : float) : Q :=
  match FloatOps.Prim2SF f with
  | SpecFloat.S754_finite s m e =>
      let n := if s then Z.neg m else Z.pos m in
      if (0 <=? e)%Z then inject_Z (n * 2 ^ e)
      else Qmake n (2 ^ Z.to_pos (- e))
  | _ => 0%Q
  end.

(** The doubles nearest to 0.02, 0.04 and 0.35. *)
Definition d0_02 : float := 0x1.47ae147ae147bp-6.
Definition d0_04 : float := 0x1.47ae147ae147bp-5.
Definition d0_35 : float := 0x1.6666666666666p-2.

End B64.

(** * Facts about the arithmetic *)

Module DblFacts.

Lemma ltb_lt (x y : Dbl.double) : Dbl.ltb x y = true <-> (x < y)%Q.
Proof.
  unfold Dbl.ltb. rewrite Qlt_alt.
  destruct (Qcompare x y); split; intros; congruence.
Qed.

Lemma ltb_ge (x y : Dbl.double) : Dbl.ltb x y = false <-> (y <= x)%Q.
Proof.
  split; intros H.
  - apply Qnot_lt_le. intros L. apply ltb_lt in L. congruence.
  - destruct (Dbl.ltb x y) eqn:E; [|reflexivity].
    apply ltb_lt in E. exfalso. exact (Qlt_not_le _ _ E H).
Qed.

Lemma ltb_spec (x y : Dbl.double) : reflect (x < y)%Q (Dbl.ltb x y).
Proof. apply iff_reflect. symmetry. apply ltb_lt. Qed.

Lemma ltb_cases (x y : Dbl.double) :
  (Dbl.ltb x y = true /\ (x < y)%Q) \/ (Dbl.ltb x y = false /\ (y <= x)%Q).
Proof.
  destruct (Dbl.ltb x y) eqn:E.
  - left. split; [reflexivity | now apply ltb_lt].
  - right. split; [reflexivity | now apply ltb_ge].
Qed.

Lemma add_eq (x y : Dbl.double) : (Dbl.add x y == x + y)%Q.
Proof. apply Qplus'_correct. Qed.

Lemma sub_eq (x y : Dbl.double) : (Dbl.sub x y == x - y)%Q.
Proof. apply Qminus'_correct. Qed.

Lemma mul_eq (x y : Dbl.double) : (Dbl.mul x y == x * y)%Q.
Proof. apply Qmult'_correct. Qed.

(** [std::clamp] returns a value between its bounds when they are ordered. *)
Lemma clamp_bounds (v lo hi : Dbl.double) :
  (lo <= hi)%Q -> (lo <= Dbl.clamp v lo hi <= hi)%Q.
Proof.
  intros Hle. unfold Dbl.clamp.
  destruct (ltb_cases v lo) as [[-> H1]|[-> H1]].
  - split; [apply Qle_refl | exact Hle].
  - destruct (ltb_cases hi v) as [[-> H2]|[-> H2]].
    + split; [exact Hle | apply Qle_refl].
    + split; assumption.
Qed.

End DblFacts.

(** * The fault manager *)

Lemma latch_cases (f : FaultCode) (fm : FaultManager) :
  (faultPriority (latched fm) < faultPriority f /\ latch f fm = mkFaultManager f)
  \/ (faultPriority f <= faultPriority (latched fm) /\ latch f fm = fm).
Proof.
  unfold latch.
  destruct (Z.gtb_spec (faultPriority f) (faultPriority (latched fm))) as [H|H].
  - left. split; [lia | reflexivity].
  - right. split; [lia | reflexivity].
Qed.

Lemma latch_priority (f : FaultCode) (fm : FaultManager) :
  faultPriority (latched (latch f fm))
  = Z.max (faultPriority f) (faultPriority (latched fm)).
Proof.
  destruct (latch_cases f fm) as [[H ->]|[H ->]]; simpl; lia.
Qed.

Lemma latch_if_priority (b : bool) (f : FaultCode) (fm : FaultManager) :
  faultPriority (latched (latch_if b f fm))
  = if b then Z.max (faultPriority f) (faultPriority (latched fm))
    else faultPriority (latched fm).
Proof. destruct b; simpl; [apply latch_priority | reflexivity]. Qed.

Lemma latch_all_monotone (fs : list FaultCode) (fm : FaultManager) :
  faultPriority (latched fm) <= faultPriority (latched (latch_all fs fm)).
Proof.
  unfold latch_all. revert fm. induction fs as [|f fs IH]; intros fm; simpl.
  - lia.
  - specialize (IH (latch f fm)).
    pose proof (latch_priority f fm) as Hp. lia.
Qed.

Lemma latch_all_app (fs gs : list FaultCode) (fm : FaultManager) :
  latch_all (fs ++ gs) fm = latch_all gs (latch_all fs fm).
Proof. unfold latch_all. apply fold_left_app. Qed.

Lemma hasFault_priority (fm : FaultManager) :
  hasFault fm = true <-> 0 < faultPriority (latched fm).
Proof.
  unfold hasFault. destruct (latched fm); simpl; split; intros; congruence || lia.
Qed.


Lemma priority_injective (f g : FaultCode) :
  faultPriority f = faultPriority g -> f = g.
Proof. destruct f, g; simpl; intros; congruence || lia. Qed.

(** C3: [latch] replaces the latched code exactly when the new code has a
    strictly higher priority; a code of the same or a lower priority, and
    [None] in particular, leaves the manager as it was; so one call never
    lowers the priority of the latched fault, and neither does any sequence
    of calls, at whatever point of the sequence it is observed. *)
Theorem latch_priority_monotone :
  forall (fm : FaultManager) (code : FaultCode) (done todo : list FaultCode),
    (faultPriority code > faultPriority (latched fm) ->
       latched (latch code fm) = code) /\
    (faultPriority code <= faultPriority (latched fm) -> latch code fm = fm) /\
    (latched (latch code fm) = code <->
       faultPriority code >= faultPriority (latched fm)) /\
    latch FNone fm = fm /\
    latch code (latch code fm) = latch code fm /\
    faultPriority (latched fm) <= faultPriority (latched (latch code fm)) /\
    faultPriority (latched (latch_all done fm))
      <= faultPriority (latched (latch_all (done ++ todo) fm)).
Proof.
  intros fm code done todo.
  repeat split.
  - intros H. destruct (latch_cases code fm) as [[_ ->]|[H' _]]; [reflexivity | lia].
  - intros H. destruct (latch_cases code fm) as [[H' _]|[_ ->]]; [lia | reflexivity].
  - intros H. destruct (latch_cases code fm) as [[H' _]|[_ E]]; [lia|].
    rewrite E in H. rewrite H. lia.
  - intros H. destruct (latch_cases code fm) as [[_ ->]|[H' ->]]; [reflexivity|].
    apply priority_injective. lia.
  - destruct (latch_cases FNone fm) as [[H _]|[_ ->]]; [|reflexivity].
    simpl in H. destruct (latched fm); simpl in H; lia.
  - destruct (latch_cases code fm) as [[_ ->]|[H ->]].
    + unfold latch. simpl. now rewrite Z.gtb_ltb, Z.ltb_irrefl.
    + destruct (latch_cases code fm) as [[H' _]|[_ ->]]; [lia | reflexivity].
  - rewrite latch_priority. lia.
  - rewrite latch_all_app. apply latch_all_monotone.
Qed.

(** * The controller scan *)

Section Update.

Variable dt : Dbl.double.
Variable inp : Inputs.
Variable c : LiftController.
Variable plant : LiftPlant.

Let fm1 := latch_faults c inp.
Let fm2 := allow_reset inp plant fm1.

Lemma update_out :
  out_of (update dt inp c plant) = snd (run_block (update_block inp c plant)).
Proof.
  unfold update, update_block, out_of.
  destruct (run_block _) as [tv out]. reflexivity.
Qed.

Lemma update_ctrl :
  ctrl_of (update dt inp c plant)
  = mkLiftController (next_state fm2 inp) fm2 (topLimit inp) (bottomLimit inp).
Proof.
  unfold update, ctrl_of, fm2, fm1.
  destruct (run_block _) as [tv out]. reflexivity.
Qed.

Lemma update_plant :
  plant_of (update dt inp c plant)
  = mkLiftPlant (position plant) (velocity plant)
                (fst (run_block (update_block inp c plant))).
Proof.
  unfold update, update_block, plant_of.
  destruct (run_block _) as [tv out]. reflexivity.
Qed.

Lemma update_state :
  state (ctrl_of (update dt inp c plant)) = next_state fm2 inp.
Proof. rewrite update_ctrl. reflexivity. Qed.

Lemma update_faults :
  faults (ctrl_of (update dt inp c plant)) = fm2.
Proof. rewrite update_ctrl. reflexivity. Qed.

Lemma update_block_state :
  update_block inp c plant
  = select_block (state (ctrl_of (update dt inp c plant))) inp.
Proof. rewrite update_state. reflexivity. Qed.

(** The priority latched by Step 1 is the highest of what was latched and of
    the faults whose condition holds on this scan. *)
Lemma latch_faults_priority :
  faultPriority (latched (latch_faults c inp))
  = Z.max (if limit_condition (state c) inp then 10 else 0)
      (Z.max (if Dbl.gtb (loadKg inp) maxLoadKg then 20 else 0)
         (Z.max (if estop inp then 30 else 0)
                (faultPriority (latched (faults c))))).
Proof.
  unfold latch_faults, limit_condition.
  assert (H0 : 0 <= faultPriority (latched (faults c)))
    by (destruct (latched (faults c)); simpl; lia).
  destruct (topLimit inp && bottomLimit inp) eqn:Eb; simpl orb;
    rewrite ?latch_priority, ?latch_if_priority;
    change (faultPriority EmergencyStop) with 30;
    change (faultPriority Overload) with 20;
    change (faultPriority LimitViolation) with 10;
    destruct (estop inp), (Dbl.gtb (loadKg inp) maxLoadKg);
    destruct (LiftState_eqb (state c) Lifting && topLimit inp);
    destruct (LiftState_eqb (state c) Lowering && bottomLimit inp);
    destruct (cmdUp inp && topLimit inp);
    destruct (cmdDown inp && bottomLimit inp); simpl orb; cbv iota; lia.
Qed.

Lemma latch_faults_monotone :
  faultPriority (latched (faults c)) <= faultPriority (latched (latch_faults c inp)).
Proof. rewrite latch_faults_priority. lia. Qed.

Lemma reset_gate_iff :
  reset_gate inp plant = true <-> reset_conditions inp plant.
Proof.
  unfold reset_gate, reset_conditions, Dbl.abs.
  rewrite !andb_true_iff, negb_true_iff, DblFacts.ltb_lt. tauto.
Qed.

Lemma reset_gate_closed_iff :
  reset_gate inp plant = false <->
  (resetFault inp = false \/ estop inp = true
   \/ (safeStopSpeedEps <= Qabs (velocity plant))%Q).
Proof.
  unfold reset_gate, Dbl.abs.
  rewrite !andb_false_iff, negb_false_iff, DblFacts.ltb_ge. tauto.
Qed.

Lemma allow_reset_closed :
  reset_gate inp plant = false -> fm2 = fm1.
Proof. intros H. unfold fm2, allow_reset. now rewrite H. Qed.

Lemma allow_reset_open :
  reset_gate inp plant = true -> fm2 = mkFaultManager FNone.
Proof. intros H. unfold fm2, allow_reset. now rewrite H. Qed.

(** A fault that survives Step 2 decides the scan. *)
Lemma faulted_scan :
  hasFault fm2 = true -> faulted_result (update dt inp c plant).
Proof.
  intros H. unfold faulted_result.
  rewrite update_out, update_plant, update_state, update_faults.
  unfold update_block. fold fm1. fold fm2.
  unfold next_state. rewrite H. simpl. repeat split; reflexivity.
Qed.

End Update.

(** C1: whatever the inputs, the controller and the plant, the [Outputs]
    returned by [update] satisfy the exclusivity invariant: the motor is
    enabled iff a direction is commanded iff the brake is released, and the
    direction is one of +1, 0 and -1. *)
Theorem update_outputs_exclusive :
  forall (dt : Dbl.double) (inp : Inputs) (c : LiftController) (plant : LiftPlant),
    let out := out_of (update dt inp c plant) in
    exclusive out /\
    (motorDir out = 1 \/ motorDir out = 0 \/ motorDir out = -1).
Proof.
  intros dt inp c plant out. subst out. rewrite update_out.
  unfold exclusive.
  destruct (update_block inp c plant); simpl;
    (split; [repeat split|]); intros; try congruence; try lia; auto.
Qed.

(** C10: the state with which Step 4 runs is [Lifting] only when the top
    limit is clear and [Lowering] only when the bottom limit is clear, so the
    two at-limit blocks of the [switch] are never executed; and an enabled
    motor is always driven away from every asserted limit switch. *)
Theorem limit_blocks_unreachable :
  forall (dt : Dbl.double) (inp : Inputs) (c : LiftController) (plant : LiftPlant),
    let r := update dt inp c plant in
    (state (ctrl_of r) = Lifting -> topLimit inp = false) /\
    (state (ctrl_of r) = Lowering -> bottomLimit inp = false) /\
    update_block inp c plant <> BlockLiftingAtLimit /\
    update_block inp c plant <> BlockLoweringAtLimit /\
    (motorEnable (out_of r) = true ->
       (motorDir (out_of r) = 1 /\ topLimit inp = false)
       \/ (motorDir (out_of r) = -1 /\ bottomLimit inp = false)) /\
    (motorEnable (out_of r) = true -> topLimit inp = true ->
       motorDir (out_of r) = -1) /\
    (motorEnable (out_of r) = true -> bottomLimit inp = true ->
       motorDir (out_of r) = 1).
Proof.
  intros dt inp c plant r. subst r.
  rewrite update_out, (update_block_state dt), update_state.
  set (fm := allow_reset inp plant (latch_faults c inp)).
  clearbody fm. unfold next_state, select_block.
  destruct inp as [up down hold es rf top bot kg]; simpl.
  destruct (hasFault fm), up, down, top, bot; simpl;
    repeat split; intros; try congruence; auto.
Qed.

(** C2: when a fault is latched before the call, [update] leaves no fault
    latched only if the reset pulse, the released emergency stop and the
    near-zero plant speed all hold in that call; when any of the three fails
    the fault latched after the call is the one latched before or one of a
    higher priority. *)
Theorem reset_gating :
  forall (dt : Dbl.double) (inp : Inputs) (c : LiftController) (plant : LiftPlant),
    latched (faults c) <> FNone ->
    let c' := ctrl_of (update dt inp c plant) in
    (latched (faults c') = FNone -> reset_conditions inp plant) /\
    (~ reset_conditions inp plant ->
       latched (faults c') <> FNone /\
       faultPriority (latched (faults c)) <= faultPriority (latched (faults c')) /\
       (latched (faults c') = latched (faults c)
        \/ faultPriority (latched (faults c)) < faultPriority (latched (faults c')))) /\
    ((resetFault inp = false \/ estop inp = true
      \/ (safeStopSpeedEps <= Qabs (velocity plant))%Q) ->
       ~ reset_conditions inp plant).
Proof.
  intros dt inp c plant Hf c'. subst c'. rewrite update_faults.
  assert (Hpos : 0 < faultPriority (latched (faults c)))
    by (destruct (latched (faults c)); simpl; congruence || lia).
  pose proof (latch_faults_monotone inp c) as Hmono.
  assert (Hclosed : ~ reset_conditions inp plant ->
            allow_reset inp plant (latch_faults c inp) = latch_faults c inp).
  { intros Hn. apply allow_reset_closed.
    destruct (reset_gate inp plant) eqn:E; [|reflexivity].
    exfalso. apply Hn. now apply reset_gate_iff. }
  split; [|split].
  - intros Hnone.
    destruct (reset_gate inp plant) eqn:E; [now apply reset_gate_iff|].
    rewrite (allow_reset_closed inp c plant E) in Hnone.
    rewrite Hnone in Hmono. simpl in Hmono. lia.
  - intros Hn. rewrite (Hclosed Hn). repeat split.
    + intros E. rewrite E in Hmono. simpl in Hmono. lia.
    + exact Hmono.
    + destruct (Z.eq_dec (faultPriority (latched (faults c)))
                         (faultPriority (latched (latch_faults c inp)))) as [E|E].
      * left. symmetry. now apply priority_injective.
      * right. lia.
  - intros Hor Hall. apply reset_gate_iff in Hall.
    apply (reset_gate_closed_iff inp plant) in Hor. congruence.
Qed.

(** An instance: Overload latched, a reset pulse with the emergency stop
    pressed; the fault stays latched. *)
Lemma reset_gating_witness :
  latched (faults (mkLiftController Faulted (mkFaultManager Overload) false true))
    <> FNone /\
  latched (faults (ctrl_of (update dt_main
             (mkInputs false false false true true false true 0%Q)
             (mkLiftController Faulted (mkFaultManager Overload) false true)
             LiftPlant_default))) <> FNone.
Proof.
  split; [discriminate|].
  apply (reset_gating dt_main
           (mkInputs false false false true true false true 0%Q)
           (mkLiftController Faulted (mkFaultManager Overload) false true)
           LiftPlant_default); [discriminate|].
  intros (_ & H & _). discriminate H.
Defined.

(** C4: a scan that starts with a fault latched, or latches one in Step 1,
    and whose reset gate is closed ends in [Faulted] with the motor disabled,
    no direction, the brake engaged, the fault lamp lit and a zero target
    velocity, whatever the up and down commands; and so does every later
    scan, whatever its inputs and plant, as long as its reset gate is closed. *)
Theorem fault_forces_faulted :
  forall (dt : Dbl.double) (c : LiftController) (inp : Inputs) (plant : LiftPlant)
         (later : list (Inputs * LiftPlant)),
    hasFault (faults c) = true \/ hasFault (latch_faults c inp) = true ->
    reset_gate inp plant = false ->
    Forall (fun call => reset_gate (fst call) (snd call) = false) later ->
    Forall faulted_result (updates dt ((inp, plant) :: later) c).
Proof.
  intros dt c inp plant later Hf Hg Hlater.
  assert (Hc : hasFault (latch_faults c inp) = true).
  { destruct Hf as [Hf|Hf]; [|exact Hf].
    apply hasFault_priority. apply hasFault_priority in Hf.
    pose proof (latch_faults_monotone inp c). lia. }
  clear Hf.
  revert c inp plant Hg Hc.
  induction Hlater as [|[inp' plant'] later Hg' Hlater IH];
    intros c inp plant Hg Hc.
  - simpl. constructor; [|constructor].
    apply faulted_scan. now rewrite allow_reset_closed.
  - change (updates dt ((inp, plant) :: (inp', plant') :: later) c)
      with (update dt inp c plant
            :: updates dt ((inp', plant') :: later) (ctrl_of (update dt inp c plant))).
    assert (Hr : faulted_result (update dt inp c plant))
      by (apply faulted_scan; now rewrite allow_reset_closed).
    constructor; [exact Hr|].
    apply IH; [exact Hg'|].
    destruct Hr as (_ & Hh & _).
    apply hasFault_priority. apply hasFault_priority in Hh.
    pose proof (latch_faults_monotone inp' (ctrl_of (update dt inp c plant))). lia.
Qed.

(** An instance: Overload latched, the operator commands up on two scans
    without a reset pulse; both scans are faulted. *)
Lemma fault_forces_faulted_witness :
  hasFault (faults (mkLiftController Holding (mkFaultManager Overload) false true))
    = true /\
  Forall faulted_result
    (updates dt_main
       [(up_inputs, LiftPlant_default); (up_inputs, LiftPlant_default)]
       (mkLiftController Holding (mkFaultManager Overload) false true)).
Proof.
  split; [reflexivity|].
  apply (fault_forces_faulted dt_main
           (mkLiftController Holding (mkFaultManager Overload) false true)
           up_inputs LiftPlant_default [(up_inputs, LiftPlant_default)]).
  - left. reflexivity.
  - reflexivity.
  - constructor; [reflexivity | constructor].
Defined.


Lemma gtb_maxLoad_false (inp : Inputs) :
  Dbl.gtb (loadKg inp) maxLoadKg = false <-> (loadKg inp <= maxLoadKg)%Q.
Proof. unfold Dbl.gtb. apply DblFacts.ltb_ge. Qed.

(** C5: a scan with [cmdUp] and [topLimit] asserted (and [bottomLimit] clear)
    leaves Step 1 with LimitViolation latched, or with the higher-priority
    fault that is latched instead; unless the reset gate is open on that scan
    the fault is still latched when the call returns and the state is
    [Faulted] already in this scan, and it is [Faulted] again after the
    following scan unless that scan's reset gate is open. *)
Theorem limit_interlock_up :
  forall (dt : Dbl.double) (inp : Inputs) (c : LiftController) (plant : LiftPlant)
         (inp2 : Inputs) (plant2 : LiftPlant),
    cmdUp inp = true -> topLimit inp = true -> bottomLimit inp = false ->
    let fm1 := latch_faults c inp in
    let r1 := update dt inp c plant in
    let r2 := update dt inp2 (ctrl_of r1) plant2 in
    faultPriority LimitViolation <= faultPriority (latched fm1) /\
    (estop inp = false -> (loadKg inp <= maxLoadKg)%Q ->
     faultPriority (latched (faults c)) <= faultPriority LimitViolation ->
       latched fm1 = LimitViolation) /\
    (reset_gate inp plant = false ->
       faults (ctrl_of r1) = fm1 /\
       state (ctrl_of r1) = Faulted /\
       (reset_gate inp2 plant2 = false -> state (ctrl_of r2) = Faulted)).
Proof.
  intros dt inp c plant inp2 plant2 Hup Htop Hbot fm1 r1 r2.
  assert (Hlim : limit_condition (state c) inp = true).
  { unfold limit_condition. rewrite Hup, Htop. simpl.
    now rewrite !orb_true_r. }
  pose proof (latch_faults_priority inp c) as Hp. rewrite Hlim in Hp.
  fold fm1 in Hp.
  assert (H10 : faultPriority LimitViolation <= faultPriority (latched fm1))
    by (simpl; lia).
  split; [exact H10|]. split.
  - intros Hes Hload Hprev. apply gtb_maxLoad_false in Hload.
    rewrite Hes, Hload in Hp. simpl in Hprev.
    apply priority_injective. simpl. lia.
  - intros Hg.
    assert (Hh1 : hasFault fm1 = true)
      by (apply hasFault_priority; simpl in H10; lia).
    assert (Hr1 : faulted_result r1)
      by (apply faulted_scan; rewrite allow_reset_closed; assumption).
    split; [|split].
    + unfold r1. rewrite update_faults. now apply allow_reset_closed.
    + apply Hr1.
    + intros Hg2.
      assert (Hr2 : faulted_result r2).
      { apply faulted_scan. rewrite allow_reset_closed by assumption.
        destruct Hr1 as (_ & Hh & _).
        apply hasFault_priority. apply hasFault_priority in Hh.
        pose proof (latch_faults_monotone inp2 (ctrl_of r1)). lia. }
      apply Hr2.
Qed.

(** An instance: a fresh controller commanded up with the top limit
    asserted; the scan ends in [Faulted]. *)
Lemma limit_interlock_up_witness :
  cmdUp (mkInputs true false false false false true false 0%Q) = true /\
  state (ctrl_of (update dt_main
           (mkInputs true false false false false true false 0%Q)
           LiftController_default (mkLiftPlant 1%Q 0%Q 0%Q))) = Faulted.
Proof.
  split; [reflexivity|].
  apply (limit_interlock_up dt_main
           (mkInputs true false false false false true false 0%Q)
           LiftController_default (mkLiftPlant 1%Q 0%Q 0%Q)
           Inputs_default LiftPlant_default);
    reflexivity.
Defined.



(** Two calls in succession on the same inputs return the same outputs; the
    plant speed, which [update] does not write, is the same in both calls. *)
Lemma update_twice (dt : Dbl.double) (inp : Inputs) (c : LiftController)
  (plant : LiftPlant) :
  let r1 := update dt inp c plant in
  let r2 := update dt inp (ctrl_of r1) (plant_of r1) in
  out_of r2 = out_of r1 /\
  state (ctrl_of r2) = state (ctrl_of r1) /\
  faults (ctrl_of r2) = faults (ctrl_of r1).
Proof.
  intros r1 r2. subst r2 r1.
  rewrite !update_out, !update_state, !update_faults.
  unfold update_block. rewrite update_ctrl, update_plant.
  unfold allow_reset, reset_gate. cbn [velocity].
  set (still := Dbl.ltb (Dbl.abs (velocity plant)) safeStopSpeedEps).
  unfold latch_faults. cbn [state faults].
  set (over := Dbl.gtb (loadKg inp) maxLoadKg).
  clearbody still over.
  destruct c as [st [f] lt lb].
  destruct inp as [up down hold es rf top bot kg]. cbn -[latch].
  destruct es, over, rf, still, top, bot, up, down, st, f;
    (split; [|split]); reflexivity.
Qed.

(** C9: with a plant at rest ([targetVel = 0], [velocity = 0]), calling
    [update] twice in succession with the same inputs returns, the second
    time, outputs equal field for field to those of the first call, from
    every controller state. *)
Theorem update_idempotent_outputs :
  forall (dt : Dbl.double) (inp : Inputs) (c : LiftController) (plant : LiftPlant),
    (targetVel plant == 0)%Q -> (velocity plant == 0)%Q ->
    let r1 := update dt inp c plant in
    let r2 := update dt inp (ctrl_of r1) (plant_of r1) in
    out_of r2 = out_of r1.
Proof.
  intros dt inp c plant _ _ r1 r2. apply update_twice.
Qed.

(** An instance: the initial controller and plant, commanded up twice. *)
Lemma update_idempotent_outputs_witness :
  (targetVel LiftPlant_default == 0)%Q /\
  (velocity LiftPlant_default == 0)%Q /\
  out_of (update dt_main up_inputs
            (ctrl_of (update dt_main up_inputs LiftController_default
                        LiftPlant_default))
            (plant_of (update dt_main up_inputs LiftController_default
                         LiftPlant_default)))
  = out_of (update dt_main up_inputs LiftController_default LiftPlant_default).
Proof.
  split; [reflexivity|]. split; [reflexivity|].
  apply (update_idempotent_outputs dt_main up_inputs LiftController_default
           LiftPlant_default); reflexivity.
Defined.

(** * The plant in binary64 *)

Module B64Facts.
Import PrimFloat FloatOps FloatAxioms SpecFloat.
Local Open Scope float_scope.

Lemma SFcompare_antisym (x y : spec_float) (c : comparison) :
  SFcompare x y = Some c -> SFcompare y x = Some (CompOpp c).
Proof.
  destruct x as [sx|sx| |sx mx ex], y as [sy|sy| |sy my ey]; simpl;
    intros H; try discriminate H; injection H as <-;
    try (destruct sx); try (destruct sy); try reflexivity.
  - rewrite (Z.compare_antisym ex ey).
    destruct (ex ?= ey)%Z; simpl; try reflexivity.
    now rewrite !Pos.compare_cont_antisym.
  - rewrite (Z.compare_antisym ex ey).
    destruct (ex ?= ey)%Z; simpl; try reflexivity.
    now rewrite Pos.compare_cont_antisym.
Qed.

Lemma SFcompare_refl (x : spec_float) :
  x <> S754_nan -> SFcompare x x = Some Eq.
Proof.
  destruct x as [s|s| |s m e]; simpl; intros H; try congruence;
    destruct s; try reflexivity;
    now rewrite Z.compare_refl, Pos.compare_cont_refl.
Qed.

Lemma SFcompare_nan (x y : spec_float) :
  SFcompare x y = None -> x = S754_nan \/ y = S754_nan.
Proof.
  destruct x as [sx|sx| |sx mx ex], y as [sy|sy| |sy my ey]; simpl;
    intros H; try discriminate H; auto.
Qed.

Lemma is_nan_false (a : float) :
  is_nan a = false <-> Prim2SF a <> S754_nan.
Proof.
  unfold is_nan. rewrite negb_false_iff, eqb_spec. unfold SFeqb. split.
  - intros H E. rewrite E in H. discriminate H.
  - intros H. now rewrite SFcompare_refl.
Qed.

Lemma leb_not_nan (a b : float) :
  (a <=? b) = true -> is_nan a = false /\ is_nan b = false.
Proof.
  rewrite leb_spec, !is_nan_false. unfold SFleb. intros H.
  split; intros E; rewrite E in H; simpl in H;
    [|destruct (Prim2SF a)]; discriminate H.
Qed.

Lemma leb_refl (a : float) : is_nan a = false -> (a <=? a) = true.
Proof.
  rewrite is_nan_false, leb_spec. unfold SFleb. intros H.
  now rewrite SFcompare_refl.
Qed.

Lemma not_ltb_leb (a b : float) :
  (a <? b) = false -> is_nan a = false -> is_nan b = false ->
  (b <=? a) = true.
Proof.
  rewrite ltb_spec, leb_spec, !is_nan_false. unfold SFltb, SFleb.
  intros H Ha Hb.
  destruct (SFcompare (Prim2SF a) (Prim2SF b)) as [c|] eqn:E.
  - rewrite (SFcompare_antisym _ _ _ E). destruct c; try reflexivity.
    discriminate H.
  - destruct (SFcompare_nan _ _ E); contradiction.
Qed.

Lemma ltb_leb (a b : float) : (a <? b) = true -> (a <=? b) = true.
Proof.
  rewrite ltb_spec, leb_spec. unfold SFltb, SFleb.
  destruct (SFcompare _ _) as [[]|]; intros H; try discriminate H; reflexivity.
Qed.

Lemma ltb_not_leb (a b : float) : (a <? b) = true -> (b <=? a) = false.
Proof.
  rewrite ltb_spec, leb_spec. unfold SFltb, SFleb. intros H.
  destruct (SFcompare (Prim2SF a) (Prim2SF b)) as [c|] eqn:E;
    [|discriminate H].
  rewrite (SFcompare_antisym _ _ _ E). destruct c; try discriminate H.
  reflexivity.
Qed.

(** [std::clamp] returns one of its three arguments, and a value between the
    bounds unless it returns a NaN it was given. *)
Lemma clamp_between (v lo hi : float) :
  (lo <=? hi) = true -> is_nan (B64.clamp v lo hi) = false ->
  (lo <=? B64.clamp v lo hi) = true /\ (B64.clamp v lo hi <=? hi) = true.
Proof.
  intros Hle. destruct (leb_not_nan _ _ Hle) as [Hlo Hhi].
  unfold B64.clamp.
  destruct (v <? lo) eqn:E1; [intros _; split; [now apply leb_refl | exact Hle]|].
  destruct (hi <? v) eqn:E2; [intros _; split; [exact Hle | now apply leb_refl]|].
  intros Hv. split; now apply not_ltb_leb.
Qed.

Lemma shr_1_nonneg (mrs : shr_record) :
  (0 <= shr_m mrs)%Z -> (0 <= shr_m (shr_1 mrs))%Z.
Proof.
  destruct mrs as [m r s]. destruct m as [|p|p]; simpl; intros H;
    try lia; destruct p; simpl; lia.
Qed.

Lemma iter_shr_1_nonneg (p : positive) (mrs : shr_record) :
  (0 <= shr_m mrs)%Z -> (0 <= shr_m (iter_pos shr_1 p mrs))%Z.
Proof.
  revert mrs. induction p as [p IH|p IH|]; intros mrs H; simpl.
  - apply IH, IH, shr_1_nonneg, H.
  - apply IH, IH, H.
  - apply shr_1_nonneg, H.
Qed.

Lemma shr_fexp_nonneg (m e : Z) (l : location) :
  (0 <= m)%Z -> (0 <= shr_m (fst (shr_fexp prec emax m e l)))%Z.
Proof.
  intros H. unfold shr_fexp, shr.
  assert (H0 : (0 <= shr_m (shr_record_of_loc m l))%Z)
    by (destruct l as [|[]]; exact H).
  destruct (_ - e)%Z; simpl; try exact H0.
  now apply iter_shr_1_nonneg.
Qed.

Lemma round_nearest_even_nonneg (m : Z) (l : location) :
  (0 <= m)%Z -> (0 <= round_nearest_even m l)%Z.
Proof.
  intros H. destruct l as [|[]]; simpl; try lia.
  destruct (Z.even m); lia.
Qed.

(** Rounding a non-negative mantissa with a positive sign gives a
    non-negative number: +0, a positive finite number or +infinity. *)
Lemma binary_round_aux_nonneg (m e : Z) (l : location) :
  (0 <= m)%Z ->
  SFleb (S754_zero false) (binary_round_aux prec emax false m e l) = true.
Proof.
  intros H. unfold binary_round_aux.
  pose proof (shr_fexp_nonneg m e l H) as H1.
  destruct (shr_fexp prec emax m e l) as [mrs' e']. simpl in H1.
  pose proof (shr_fexp_nonneg
                (round_nearest_even (shr_m mrs') (loc_of_shr_record mrs'))
                e' loc_Exact
                (round_nearest_even_nonneg _ _ H1)) as H2.
  destruct (shr_fexp prec emax _ e' loc_Exact) as [mrs'' e'']. simpl in H2.
  destruct (shr_m mrs'') as [|q|q]; [reflexivity| |lia].
  destruct (e'' <=? emax - prec)%Z; reflexivity.
Qed.

Lemma Prim2SF_3 : Prim2SF 3 = S754_finite false 6755399441055744 (-51).
Proof. vm_compute. reflexivity. Qed.

Lemma Prim2SF_0 : Prim2SF 0 = S754_zero false.
Proof. vm_compute. reflexivity. Qed.

(** The acceleration step [3.0 * dt] of a positive [dt] is not negative. *)
Lemma maxDv_nonneg (dt : float) :
  (0 <? dt) = true -> (0 <=? 3 * dt) = true.
Proof.
  rewrite ltb_spec, leb_spec, mul_spec, Prim2SF_3, Prim2SF_0.
  unfold SFltb. intros H.
  destruct (Prim2SF dt) as [s|s| |s m e]; simpl in H; try discriminate H;
    destruct s; try discriminate H.
  - reflexivity.
  - unfold SF64mul, SFmul. cbn [xorb]. now apply binary_round_aux_nonneg.
Qed.

(** A non-negative bound is not below its opposite. *)
Lemma opp_leb (m : float) : (0 <=? m) = true -> (- m <=? m) = true.
Proof.
  rewrite !leb_spec, opp_spec, Prim2SF_0. unfold SFleb.
  destruct (Prim2SF m) as [s|s| |s q e]; simpl; intros H; try discriminate H;
    destruct s; try discriminate H; reflexivity.
Qed.

End B64Facts.

Module B64Step.
Import PrimFloat.
Local Open Scope float_scope.

(** C7, refuted as stated: in binary64 the velocity can change by more than
    [accel * dt] in one step.  From velocity 0.04 toward target 0.35 with
    [dt = 0.02] the new velocity differs from the old one by more than the
    double [3.0 * 0.02], and by more than three times the double 0.02 as
    well; and with an infinite [dt], which is greater than zero, a plant at
    rest gets a NaN position, which is not in [0, 1]. *)
Lemma velocity_bound_fails_binary64 :
  (0 <? B64.d0_02) = true /\
  (B64.exact (B64.accel * B64.d0_02)
   < Qabs (B64.exact (B64.velocity_after_accel B64.d0_02
                        (B64.mkLiftPlant 0 B64.d0_04 B64.d0_35))
           - B64.exact B64.d0_04))%Q /\
  (3 * B64.exact B64.d0_02
   < Qabs (B64.exact (B64.velocity_after_accel B64.d0_02
                        (B64.mkLiftPlant 0 B64.d0_04 B64.d0_35))
           - B64.exact B64.d0_04))%Q /\
  B64.velocity (B64.step B64.d0_02 (B64.mkLiftPlant 0 B64.d0_04 B64.d0_35))
  = B64.velocity_after_accel B64.d0_02
      (B64.mkLiftPlant 0 B64.d0_04 B64.d0_35) /\
  (0 <? infinity) = true /\
  is_nan
    (B64.position (B64.step infinity
                     (B64.mkLiftPlant 0 0 0))) = true.
Proof.
  repeat split; vm_compute; reflexivity.
Qed.

(** C7, as amended: for [dt > 0], [step] computes in binary64
    [dv = clamp(targetVel - velocity, -(3.0 * dt), 3.0 * dt)], adds it to the
    velocity, adds the new velocity times [dt] to the position and clamps it
    to [0, 1], and zeroes the velocity when the position is at an end of
    travel and the velocity still points into it.  So the position after a
    step lies in [0, 1] unless it is NaN, and the delta added to the velocity
    is within [3.0 * dt] of zero unless it is NaN; the velocity after the
    update is the rounded sum [velocity + dv]. *)
Theorem step_binary64 :
  forall (dt : float) (p : B64.LiftPlant),
    (0 <? dt) = true ->
    let maxDv := 3 * dt in
    let dv := B64.clamp (B64.targetVel p - B64.velocity p) (- maxDv) maxDv in
    let v1 := B64.velocity p + dv in
    let pos := B64.clamp (B64.position p + v1 * dt) 0 1 in
    B64.velocity_after_accel dt p = v1 /\
    B64.position (B64.step dt p) = pos /\
    B64.velocity (B64.step dt p)
    = (if ((pos <=? 0) && (v1 <? 0)) || ((1 <=? pos) && (0 <? v1))
       then 0 else v1) /\
    B64.targetVel (B64.step dt p) = B64.targetVel p /\
    (is_nan pos = false -> (0 <=? pos) = true /\ (pos <=? 1) = true) /\
    (0 <=? maxDv) = true /\
    (is_nan dv = false -> (- maxDv <=? dv) = true /\ (dv <=? maxDv) = true).
Proof.
  intros dt p Hdt maxDv dv v1 pos.
  pose proof (B64Facts.maxDv_nonneg dt Hdt) as Hm. fold maxDv in Hm.
  refine (conj eq_refl (conj eq_refl (conj _ (conj eq_refl (conj _ (conj Hm _)))))).
  - unfold B64.step, B64.accel. fold maxDv. fold dv. fold v1. fold pos.
    cbn [B64.velocity].
    destruct ((pos <=? 0) && (v1 <? 0)) eqn:A.
    + cbn [orb]. change (0 <? 0) with false. now rewrite andb_false_r.
    + cbn [orb]. reflexivity.
  - intros Hn. apply B64Facts.clamp_between; [vm_compute; reflexivity | exact Hn].
  - intros Hn. apply B64Facts.clamp_between; [|exact Hn].
    now apply B64Facts.opp_leb.
Qed.

(** An instance: the plant of the refutation, one step of 20 ms. *)
Lemma step_binary64_witness :
  (0 <? B64.d0_02) = true /\
  B64.position (B64.step B64.d0_02 (B64.mkLiftPlant 0 B64.d0_04 B64.d0_35))
  = B64.clamp
      (0 + (B64.d0_04
            + B64.clamp (B64.d0_35 - B64.d0_04)
                (- (3 * B64.d0_02)) (3 * B64.d0_02)) * B64.d0_02) 0 1.
Proof.
  split; [reflexivity|].
  destruct (step_binary64 B64.d0_02 (B64.mkLiftPlant 0 B64.d0_04 B64.d0_35)
              eq_refl) as (_ & Hpos & _).
  exact Hpos.
Defined.

End B64Step.

(** * Scenario A: lifting to the top at the console *)

Lemma main_loop_add (a b : nat) (stdin : list Line) (s : Sim) :
  main_loop (a + b) stdin s
  = main_loop a stdin s
    ++ main_loop b (snd (main_after a stdin s)) (fst (main_after a stdin s)).
Proof.
  revert stdin s. induction a as [|a IH]; intros stdin s; simpl.
  - reflexivity.
  - destruct (sim_quit s) eqn:Q.
    + simpl. destruct b; simpl; now rewrite ?Q.
    + destruct (cycle stdin s) as [s' stdin']. simpl. now rewrite IH.
Qed.

Lemma scan_ctrl (i : Inputs) (c : LiftController) (plant : LiftPlant) :
  scan i c plant
  = let i' := sense_limits plant i in
    let r := update dt_main i' c plant in
    (i', out_of r, ctrl_of r,
     step dt_main (if brakeEngaged (out_of r)
                   then set_targetVel 0%Q (plant_of r) else plant_of r)).
Proof.
  unfold scan. cbv zeta.
  destruct (update dt_main (sense_limits plant i) c plant) as [[out c'] p'].
  reflexivity.
Qed.

Lemma cycle_no_input (s : Sim) :
  cycle [] s
  = let i := sense_limits (sim_plant s) (set_resetFault false (sim_in s)) in
    let r := update dt_main i (sim_ctrl s) (sim_plant s) in
    (mkSim (step dt_main (if brakeEngaged (out_of r)
                          then set_targetVel 0%Q (plant_of r) else plant_of r))
           (ctrl_of r) i (out_of r) (sim_quit s) (int_incr (inputPoll s)), []).
Proof.
  unfold cycle.
  destruct (inputPoll s mod 25 =? 0); cbv beta iota zeta;
    rewrite scan_ctrl; reflexivity.
Qed.

Lemma limit_faulted_cycle (s : Sim) :
  limit_faulted s -> limit_faulted (fst (cycle [] s)).
Proof.
  intros (Hst & Hl & Hes & Hload).
  rewrite cycle_no_input. cbv zeta.
  unfold limit_faulted. cbn [fst sim_ctrl sim_in].
  set (i := sense_limits (sim_plant s) (set_resetFault false (sim_in s))).
  assert (Hes' : estop i = false) by exact Hes.
  assert (Hload' : loadKg i = 0%Q) by exact Hload.
  assert (Hrf : resetFault i = false) by reflexivity.
  assert (Hg : reset_gate i (sim_plant s) = false)
    by (unfold reset_gate; now rewrite Hrf).
  rewrite update_state, update_faults.
  rewrite (allow_reset_closed i (sim_ctrl s) (sim_plant s) Hg).
  pose proof (latch_faults_priority i (sim_ctrl s)) as Hp.
  rewrite Hes', Hl in Hp. unfold Dbl.gtb in Hp. rewrite Hload' in Hp.
  change (Dbl.ltb maxLoadKg 0%Q) with false in Hp.
  assert (Hlatched : latched (latch_faults (sim_ctrl s) i) = LimitViolation).
  { apply priority_injective. rewrite Hp. simpl.
    destruct (limit_condition _ _); reflexivity. }
  repeat split; try assumption.
  unfold next_state, hasFault. now rewrite Hlatched.
Qed.

Lemma limit_faulted_forever (n : nat) (s : Sim) :
  limit_faulted s -> Forall limit_faulted (main_loop n [] s).
Proof.
  revert s. induction n as [|n IH]; intros s H; simpl.
  - constructor.
  - destruct (sim_quit s); [constructor|].
    pose proof (limit_faulted_cycle s H) as H'.
    assert (Hnil : snd (cycle [] s) = []) by (now rewrite cycle_no_input).
    destruct (cycle [] s) as [s' stdin']. simpl in H', Hnil. subst stdin'.
    constructor; [exact H'|]. now apply IH.
Qed.

Lemma console_up_run_add (a b : nat) :
  console_up_run (a + b)
  = console_up_run a
    ++ map sim_ctrl
         (main_loop b (snd (main_after a [LineUp] Sim_default))
                      (fst (main_after a [LineUp] Sim_default))).
Proof. unfold console_up_run. now rewrite main_loop_add, map_app. Qed.

Lemma console_up_run_146 :
  map state (console_up_run 146) = repeat Lifting 146.
Proof. vm_compute. reflexivity. Qed.

Lemma console_up_run_147 :
  map (fun c => (state c, latched (faults c), lastTopLimit c))
      (console_up_run 147)
  = repeat (Lifting, FNone, false) 146 ++ [(Faulted, LimitViolation, true)].
Proof. vm_compute. reflexivity. Qed.

Lemma console_position_146 :
  position (sim_plant (fst (main_after 146 [LineUp] Sim_default))) = 1%Q.
Proof. vm_compute. reflexivity. Qed.

Lemma main_loop_no_input_length (n : nat) (s : Sim) :
  sim_quit s = false -> length (main_loop n [] s) = n.
Proof.
  revert s. induction n as [|n IH]; intros s Hq; simpl; [reflexivity|].
  rewrite Hq.
  assert (Hc : snd (cycle [] s) = [] /\ sim_quit (fst (cycle [] s)) = false)
    by (rewrite cycle_no_input; split; [reflexivity | exact Hq]).
  destruct (cycle [] s) as [s' stdin']. simpl in Hc. destruct Hc as [-> Hq'].
  simpl. now rewrite IH.
Qed.

Lemma console_after_147 :
  limit_faulted (fst (main_after 147 [LineUp] Sim_default)) /\
  snd (main_after 147 [LineUp] Sim_default) = [] /\
  sim_quit (fst (main_after 147 [LineUp] Sim_default)) = false.
Proof. unfold limit_faulted. repeat split; vm_compute; reflexivity. Qed.

Lemma violation_not_scenario_A (cs : list LiftController) (k : nat) :
  latched (faults (nth k cs LiftController_default)) = LimitViolation ->
  ~ scenario_A_holds cs.
Proof.
  intros Hk (_ & _ & Hno).
  destruct (Nat.lt_ge_cases k (length cs)) as [Hlt|Hge].
  - rewrite Forall_forall in Hno.
    apply (Hno (nth k cs LiftController_default)); [now apply nth_In | exact Hk].
  - rewrite nth_overflow in Hk by exact Hge. discriminate Hk.
Qed.

(** C6, refuted as stated: however long the console run with [cmdUp] held,
    it is not the run of scenario A (up to scan 146 the lift has not stopped
    lifting, and scan 147 latches LimitViolation); and withdrawing the command
    on the very scan that first senses the top limit, so that it is never
    asserted against the limit, latches LimitViolation all the same. *)
Lemma scenario_A_counterexample :
  ~ (exists n : nat, scenario_A_holds (console_up_run n)) /\
  ~ scenario_A_holds (up_then_idle_run 146 4).
Proof.
  split.
  - intros [n H].
    destruct (Nat.le_gt_cases n 146) as [Hle|Hgt].
    + destruct H as ((a & b & Ha & Hb & Hseq) & _ & _).
      assert (Hin : In Holding (map state (console_up_run n))).
      { rewrite Hseq. apply in_or_app. right.
        destruct b as [|b]; [lia|]. simpl. now left. }
      assert (Hall : In Holding (repeat Lifting 146)).
      { rewrite <- console_up_run_146.
        replace 146%nat with (n + (146 - n))%nat by lia.
        rewrite console_up_run_add, map_app. apply in_or_app. now left. }
      apply repeat_spec in Hall. discriminate Hall.
    + revert H. replace n with (147 + (n - 147))%nat by lia.
      rewrite console_up_run_add.
      apply (violation_not_scenario_A _ 146).
      rewrite app_nth1 by (vm_compute; lia).
      vm_compute. reflexivity.
  - apply (violation_not_scenario_A _ 146). vm_compute. reflexivity.
Qed.

(** C6, as amended: typing [u] once at the console, from [position = 0] with
    no fault, gives 146 scans in [Lifting] without a fault and with the top
    limit clear; scan 147, the first that senses the top limit, latches
    LimitViolation and ends in [Faulted], and every later scan of the run is
    [Faulted] with LimitViolation latched.  The cause is general: a scan
    entered in [Lifting] with the top limit asserted latches a fault whatever
    the commands.  The sequence Lifting then Holding at the top without a
    fault is what happens when the command is withdrawn before the limit is
    sensed, as after 145 scans. *)
Theorem scenario_A_as_coded :
  map (fun c => (state c, latched (faults c), lastTopLimit c))
      (console_up_run 147)
  = repeat (Lifting, FNone, false) 146 ++ [(Faulted, LimitViolation, true)] /\
  position (sim_plant (fst (main_after 146 [LineUp] Sim_default))) = 1%Q /\
  (forall k : nat, exists tail : list LiftController,
      console_up_run (147 + k) = console_up_run 147 ++ tail /\
      length tail = k /\
      Forall (fun c => state c = Faulted /\ latched (faults c) = LimitViolation)
             tail) /\
  (forall (inp : Inputs) (c : LiftController),
      state c = Lifting -> topLimit inp = true ->
      faultPriority LimitViolation
      <= faultPriority (latched (latch_faults c inp))) /\
  scenario_A_holds (up_then_idle_run 145 3).
Proof.
  refine (conj console_up_run_147
            (conj console_position_146 (conj _ (conj _ _)))).
  - intros k. rewrite console_up_run_add.
    destruct console_after_147 as (Hf & Hnil & Hq). rewrite Hnil.
    eexists. split; [reflexivity|].
    split; [rewrite length_map; now apply main_loop_no_input_length|].
    apply Forall_map.
    eapply Forall_impl; [|apply limit_faulted_forever; exact Hf].
    intros s (Hs & Hl & _). now split.
  - intros inp c Hst Htop.
    rewrite latch_faults_priority.
    assert (Hlim : limit_condition (state c) inp = true).
    { unfold limit_condition. rewrite Hst, Htop. simpl.
      destruct (bottomLimit inp); reflexivity. }
    rewrite Hlim. simpl. lia.
  - unfold scenario_A_holds. split; [|split].
    + exists 145%nat, 3%nat.
      split; [lia | split; [lia | vm_compute; reflexivity]].
    + vm_compute. reflexivity.
    + assert (H : forallb (fun c => negb (FaultCode_eqb (latched (faults c))
                                                        LimitViolation))
                          (up_then_idle_run 145 3) = true)
        by (vm_compute; reflexivity).
      rewrite forallb_forall in H. apply Forall_forall. intros c Hin E.
      specialize (H c Hin). rewrite E in H. discriminate H.
Qed.

(** * More on the fault manager *)

Lemma latch_latched_max (f : FaultCode) (fm : FaultManager) :
  latched (latch f fm)
  = if faultPriority f >? faultPriority (latched fm) then f else latched fm.
Proof. unfold latch. now destruct (_ >? _). Qed.

Lemma FaultManager_ext (a b : FaultManager) : latched a = latched b -> a = b.
Proof. destruct a, b; simpl; congruence. Qed.

(** X1: the order of two [latch] calls does not matter, and so the fault
    latched by a sequence of calls depends only on which codes were offered,
    not on the order in which the checks ran. *)
Theorem latch_order_irrelevant :
  forall (fm : FaultManager) (f g : FaultCode) (fs gs : list FaultCode),
    latch f (latch g fm) = latch g (latch f fm) /\
    (Permutation fs gs -> latch_all fs fm = latch_all gs fm).
Proof.
  intros fm f g fs gs.
  assert (Hcomm : forall m a b, latch a (latch b m) = latch b (latch a m)).
  { intros m a b. apply FaultManager_ext. apply priority_injective.
    rewrite !latch_priority. lia. }
  split; [apply Hcomm|].
  intros HP. revert fm. induction HP; intros fm; simpl.
  - reflexivity.
  - apply IHHP.
  - unfold latch_all. simpl. now rewrite Hcomm.
  - now rewrite IHHP1.
Qed.

Lemma latch_order_irrelevant_witness :
  Permutation [Overload; EmergencyStop; LimitViolation]
              [LimitViolation; Overload; EmergencyStop] /\
  latch_all [Overload; EmergencyStop; LimitViolation] FaultManager_default
  = latch_all [LimitViolation; Overload; EmergencyStop] FaultManager_default.
Proof.
  assert (HP : Permutation [Overload; EmergencyStop; LimitViolation]
                           [LimitViolation; Overload; EmergencyStop]).
  { apply Permutation_sym.
    apply (Permutation_cons_app [Overload; EmergencyStop] []).
    apply Permutation_refl. }
  split; [exact HP|].
  apply (latch_order_irrelevant FaultManager_default FNone FNone
           [Overload; EmergencyStop; LimitViolation]
           [LimitViolation; Overload; EmergencyStop]).
  exact HP.
Defined.

(** X2: after [clear], a sequence of [latch] calls leaves latched the code of
    highest priority among those offered: it is one of the offered codes (or
    None when the sequence offers nothing but None), no offered code has a
    higher priority, and a fault is latched iff some offered code is not
    None. *)
Theorem latch_all_after_clear :
  forall (fm : FaultManager) (fs : list FaultCode),
    let r := latch_all fs (clear fm) in
    (latched r = FNone \/ In (latched r) fs) /\
    Forall (fun f => faultPriority f <= faultPriority (latched r)) fs /\
    (hasFault r = true <-> exists f, In f fs /\ f <> FNone).
Proof.
  intros fm fs r. subst r.
  assert (Hgen : forall m,
     (latched (latch_all fs m) = latched m \/ In (latched (latch_all fs m)) fs) /\
     Forall (fun f => faultPriority f <= faultPriority (latched (latch_all fs m))) fs).
  { induction fs as [|f fs IH]; intros m.
    - split; [now left | constructor].
    - change (latch_all (f :: fs) m) with (latch_all fs (latch f m)).
      destruct (IH (latch f m)) as [H1 H2]. split.
      + destruct H1 as [H1|H1]; [|right; now right].
        rewrite H1, latch_latched_max.
        destruct (_ >? _); [right; now left | now left].
      + constructor; [|exact H2].
        pose proof (latch_all_monotone fs (latch f m)) as Hm.
        rewrite latch_priority in Hm. lia. }
  destruct (Hgen (clear fm)) as [H1 H2]. simpl in H1.
  refine (conj H1 (conj H2 _)).
  rewrite hasFault_priority. split.
  - intros Hpos. destruct H1 as [H1|H1]; [rewrite H1 in Hpos; simpl in Hpos; lia|].
    exists (latched (latch_all fs (clear fm))). split; [exact H1|].
    intros E. rewrite E in Hpos. simpl in Hpos. lia.
  - intros (f & Hin & Hne). rewrite Forall_forall in H2.
    specialize (H2 f Hin). destruct f; simpl in H2; try congruence; lia.
Qed.

(** * More on the plant *)

(** The acceleration update in plain arithmetic: the velocity moves toward
    the target by the difference, cut to [accel * dt] in size. *)
Lemma velocity_after_accel_cases (dt : Dbl.double) (p : LiftPlant) :
  (0 <= dt)%Q ->
  let v := velocity p in
  let t := targetVel p in
  let v1 := velocity_after_accel dt p in
  (t - v < - (accel * dt) /\ v1 == v - accel * dt)%Q
  \/ (accel * dt < t - v /\ v1 == v + accel * dt)%Q
  \/ (- (accel * dt) <= t - v <= accel * dt /\ v1 == t)%Q.
Proof.
  intros Hdt v t v1. subst v t v1.
  unfold velocity_after_accel, Dbl.clamp, Dbl.neg.
  rewrite DblFacts.add_eq.
  pose proof (DblFacts.mul_eq accel dt) as Hm.
  pose proof (DblFacts.sub_eq (targetVel p) (velocity p)) as Hs.
  set (m := Dbl.mul accel dt) in *. set (d := Dbl.sub _ _) in *.
  destruct (DblFacts.ltb_cases d (- m)%Q) as [[-> H1]|[-> H1]].
  - left. split; lra.
  - destruct (DblFacts.ltb_cases m d) as [[-> H2]|[-> H2]].
    + right. left. split; lra.
    + right. right. split; lra.
Qed.

Lemma accel_dt_nonneg (dt : Dbl.double) : (0 <= dt)%Q -> (0 <= accel * dt)%Q.
Proof. intros H. unfold accel. lra. Qed.

Lemma step_velocity_cases (dt : Dbl.double) (p : LiftPlant) :
  velocity (step dt p) = velocity_after_accel dt p
  \/ velocity (step dt p) = 0%Q.
Proof.
  unfold step. fold (velocity_after_accel dt p). cbn [velocity].
  repeat match goal with
         | |- context [if ?b then _ else _] => destruct b
         end; auto.
Qed.






(** * More on the controller scan *)

(** X8: [update] reads neither [dt], nor [cmdHold], nor the limits recorded
    by the previous scan, nor the position and the target velocity of the
    plant: changing any of them changes neither the outputs, nor the state,
    nor the latched fault, nor the target velocity written. *)
Theorem update_ignores_unused_inputs :
  forall (dt dt' : Dbl.double) (inp : Inputs) (c : LiftController)
         (plant : LiftPlant) (hold' lastTop' lastBottom' : bool)
         (position' targetVel' : Dbl.double),
    let inp' := mkInputs (cmdUp inp) (cmdDown inp) hold' (estop inp)
                         (resetFault inp) (topLimit inp) (bottomLimit inp)
                         (loadKg inp) in
    let c' := mkLiftController (state c) (faults c) lastTop' lastBottom' in
    let plant' := mkLiftPlant position' (velocity plant) targetVel' in
    let r := update dt inp c plant in
    let r' := update dt' inp' c' plant' in
    out_of r' = out_of r /\
    state (ctrl_of r') = state (ctrl_of r) /\
    faults (ctrl_of r') = faults (ctrl_of r) /\
    targetVel (plant_of r') = targetVel (plant_of r).
Proof.
  intros. subst r r'.
  rewrite !update_out, !update_state, !update_faults, !update_plant.
  repeat split; reflexivity.
Qed.

(** X9: [update] writes the plant's target velocity and nothing else of the
    plant, and the target it writes is the one the outputs announce:
    [liftSpeed] with direction +1, [-lowerSpeed] with direction -1, and zero
    exactly when the brake is engaged. *)
Theorem update_plant_frame :
  forall (dt : Dbl.double) (inp : Inputs) (c : LiftController) (plant : LiftPlant),
    let r := update dt inp c plant in
    position (plant_of r) = position plant /\
    velocity (plant_of r) = velocity plant /\
    (motorDir (out_of r) = 1 /\ targetVel (plant_of r) = liftSpeed
     \/ motorDir (out_of r) = -1 /\ targetVel (plant_of r) = Dbl.neg lowerSpeed
     \/ motorDir (out_of r) = 0 /\ targetVel (plant_of r) = 0%Q) /\
    (brakeEngaged (out_of r) = true <-> targetVel (plant_of r) = 0%Q).
Proof.
  intros dt inp c plant r. subst r.
  rewrite update_out, update_plant. cbn [position velocity targetVel].
  destruct (update_block inp c plant); simpl;
    repeat split; auto; intros; try reflexivity; try discriminate.
Qed.

(** X10: while the emergency stop is pressed every scan ends faulted with
    EmergencyStop latched, whatever was latched before and even on a scan
    that carries a reset pulse with the lift at rest. *)
Theorem estop_dominates :
  forall (dt : Dbl.double) (inp : Inputs) (c : LiftController) (plant : LiftPlant),
    estop inp = true ->
    let r := update dt inp c plant in
    latched (faults (ctrl_of r)) = EmergencyStop /\ faulted_result r.
Proof.
  intros dt inp c plant He r. subst r.
  assert (Hg : reset_gate inp plant = false).
  { unfold reset_gate. rewrite He. simpl. now rewrite andb_false_r. }
  assert (Hl : latched (latch_faults c inp) = EmergencyStop).
  { apply priority_injective. rewrite latch_faults_priority, He.
    change (faultPriority EmergencyStop) with 30.
    destruct (limit_condition _ _), (Dbl.gtb _ _), (latched (faults c));
      reflexivity. }
  split.
  - rewrite update_faults, allow_reset_closed by exact Hg. exact Hl.
  - apply faulted_scan. rewrite allow_reset_closed by exact Hg.
    unfold hasFault. now rewrite Hl.
Qed.

Lemma estop_dominates_witness :
  estop (mkInputs false false false true true false true 0%Q) = true /\
  latched (faults (ctrl_of (update dt_main
            (mkInputs false false false true true false true 0%Q)
            LiftController_default LiftPlant_default))) = EmergencyStop.
Proof.
  split; [reflexivity|].
  apply (estop_dominates dt_main
           (mkInputs false false false true true false true 0%Q)
           LiftController_default LiftPlant_default).
  reflexivity.
Defined.

(** X11: a scan whose reset gate is open returns with no fault latched and
    the lamp off whatever Step 1 latched on that same scan, an overload or a
    limit violation still present included; the state is then chosen by the
    commands alone, so a single up command with the top limit clear runs the
    motor on that scan. *)
Theorem open_gate_overrides_faults :
  forall (dt : Dbl.double) (inp : Inputs) (c : LiftController) (plant : LiftPlant),
    reset_gate inp plant = true ->
    let r := update dt inp c plant in
    latched (faults (ctrl_of r)) = FNone /\
    faultLamp (out_of r) = false /\
    state (ctrl_of r) <> Faulted /\
    (cmdUp inp = true -> cmdDown inp = false -> topLimit inp = false ->
       motorEnable (out_of r) = true /\ motorDir (out_of r) = 1) /\
    (cmdDown inp = true -> cmdUp inp = false -> bottomLimit inp = false ->
       motorEnable (out_of r) = true /\ motorDir (out_of r) = -1).
Proof.
  intros dt inp c plant Hg r. subst r.
  rewrite update_out, update_state, update_faults.
  unfold update_block.
  rewrite (allow_reset_open inp c plant Hg).
  unfold next_state, select_block. simpl hasFault. cbv iota.
  destruct inp as [up down hold es rf top bot kg]; simpl.
  destruct up, down, top, bot; simpl;
    repeat split; intros; try discriminate; try reflexivity.
Qed.

Lemma open_gate_overrides_faults_witness :
  reset_gate (mkInputs true false false false true false false 5000%Q)
             LiftPlant_default = true /\
  motorEnable (out_of (update dt_main
      (mkInputs true false false false true false false 5000%Q)
      (mkLiftController Faulted (mkFaultManager Overload) false false)
      LiftPlant_default)) = true.
Proof.
  split; [reflexivity|].
  destruct (open_gate_overrides_faults dt_main
              (mkInputs true false false false true false false 5000%Q)
              (mkLiftController Faulted (mkFaultManager Overload) false false)
              LiftPlant_default eq_refl) as (_ & _ & _ & Hup & _).
  apply Hup; reflexivity.
Defined.

(** X12: the motor is commanded upward exactly when no fault is latched as
    the call returns and the inputs carry [cmdUp] without [cmdDown] and with
    the top limit clear, and downward symmetrically; in particular
    conflicting up and down commands, or no command, never enable it. *)
Theorem motor_command_conditions :
  forall (dt : Dbl.double) (inp : Inputs) (c : LiftController) (plant : LiftPlant),
    let r := update dt inp c plant in
    (motorDir (out_of r) = 1 <->
       hasFault (faults (ctrl_of r)) = false /\
       cmdUp inp = true /\ cmdDown inp = false /\ topLimit inp = false) /\
    (motorDir (out_of r) = -1 <->
       hasFault (faults (ctrl_of r)) = false /\
       cmdDown inp = true /\ cmdUp inp = false /\ bottomLimit inp = false) /\
    (cmdUp inp = cmdDown inp ->
       motorEnable (out_of r) = false /\ brakeEngaged (out_of r) = true).
Proof.
  intros dt inp c plant r. subst r.
  rewrite update_out, update_faults. unfold update_block.
  set (fm := allow_reset inp plant (latch_faults c inp)). clearbody fm.
  unfold next_state, select_block.
  destruct inp as [up down hold es rf top bot kg]; simpl.
  destruct (hasFault fm), up, down, top, bot; simpl;
    repeat split; intros;
    repeat match goal with H : _ /\ _ |- _ => destruct H end;
    try discriminate; try reflexivity; try lia.
Qed.

(** X13: when [update] returns, the fault lamp is lit iff a fault is latched
    iff the state is [Faulted]. *)
Theorem lamp_iff_fault_iff_faulted :
  forall (dt : Dbl.double) (inp : Inputs) (c : LiftController) (plant : LiftPlant),
    let r := update dt inp c plant in
    (faultLamp (out_of r) = true <-> hasFault (faults (ctrl_of r)) = true) /\
    (hasFault (faults (ctrl_of r)) = true <-> state (ctrl_of r) = Faulted).
Proof.
  intros dt inp c plant r. subst r.
  rewrite update_out, update_state, update_faults. unfold update_block.
  set (fm := allow_reset inp plant (latch_faults c inp)). clearbody fm.
  unfold next_state, select_block.
  destruct inp as [up down hold es rf top bot kg]; simpl.
  destruct (hasFault fm), up, down, top, bot; simpl;
    repeat split; intros; try discriminate; try reflexivity.
Qed.

(** X14: with the reset gate closed, the fault latched when [update] returns
    is the most severe of the fault latched before and the faults whose
    condition holds on this scan: EmergencyStop if the emergency stop is
    pressed or was latched, else Overload if the load exceeds the limit or
    Overload was latched, else LimitViolation if a limit condition holds or
    it was latched, else none. *)
Theorem latched_after_scan :
  forall (dt : Dbl.double) (inp : Inputs) (c : LiftController) (plant : LiftPlant),
    reset_gate inp plant = false ->
    latched (faults (ctrl_of (update dt inp c plant)))
    = if estop inp || FaultCode_eqb (latched (faults c)) EmergencyStop
      then EmergencyStop
      else if Dbl.gtb (loadKg inp) maxLoadKg
              || FaultCode_eqb (latched (faults c)) Overload
      then Overload
      else if limit_condition (state c) inp
              || FaultCode_eqb (latched (faults c)) LimitViolation
      then LimitViolation
      else FNone.
Proof.
  intros dt inp c plant Hg.
  rewrite update_faults, allow_reset_closed by exact Hg.
  apply priority_injective. rewrite latch_faults_priority.
  destruct (estop inp), (Dbl.gtb (loadKg inp) maxLoadKg),
    (limit_condition (state c) inp), (latched (faults c)); reflexivity.
Qed.

Lemma latched_after_scan_witness :
  reset_gate (mkInputs true false false false false true false 2000%Q)
             LiftPlant_default = false /\
  latched (faults (ctrl_of (update dt_main
     (mkInputs true false false false false true false 2000%Q)
     LiftController_default LiftPlant_default))) = Overload.
Proof.
  split; [reflexivity|].
  rewrite (latched_after_scan dt_main
     (mkInputs true false false false false true false 2000%Q)
     LiftController_default LiftPlant_default); reflexivity.
Defined.

(** X26: a reset does not hold while its cause persists: when the reset gate
    is open on a scan whose inputs command into an asserted limit, show both
    limits or carry an overload, that scan returns with no fault latched, and
    the next scan on the same inputs without the pulse ends [Faulted] with
    Overload latched if the load is over the limit and LimitViolation
    otherwise. *)
Theorem reset_relatches_persisting_fault :
  forall (dt : Dbl.double) (inp : Inputs) (c : LiftController) (plant : LiftPlant),
    reset_gate inp plant = true ->
    (cmdUp inp && topLimit inp) || (cmdDown inp && bottomLimit inp)
    || (topLimit inp && bottomLimit inp)
    || Dbl.gtb (loadKg inp) maxLoadKg = true ->
    let r1 := update dt inp c plant in
    let r2 := update dt (set_resetFault false inp) (ctrl_of r1) (plant_of r1) in
    latched (faults (ctrl_of r1)) = FNone /\
    faulted_result r2 /\
    latched (faults (ctrl_of r2))
    = if Dbl.gtb (loadKg inp) maxLoadKg then Overload else LimitViolation.
Proof.
  intros dt inp c plant Hg Hcause r1 r2.
  assert (Hes : estop inp = false).
  { unfold reset_gate in Hg. destruct (estop inp); [|reflexivity].
    rewrite andb_false_r in Hg. discriminate Hg. }
  assert (H1 : faults (ctrl_of r1) = mkFaultManager FNone).
  { unfold r1. rewrite update_faults. now apply allow_reset_open. }
  assert (Hg2 : reset_gate (set_resetFault false inp) (plant_of r1) = false)
    by reflexivity.
  assert (Hl : latched (latch_faults (ctrl_of r1) (set_resetFault false inp))
               = if Dbl.gtb (loadKg inp) maxLoadKg then Overload
                 else LimitViolation).
  { apply priority_injective. rewrite latch_faults_priority, H1.
    change (estop (set_resetFault false inp)) with (estop inp).
    change (loadKg (set_resetFault false inp)) with (loadKg inp).
    rewrite Hes. unfold limit_condition.
    change (topLimit (set_resetFault false inp)) with (topLimit inp).
    change (bottomLimit (set_resetFault false inp)) with (bottomLimit inp).
    change (cmdUp (set_resetFault false inp)) with (cmdUp inp).
    change (cmdDown (set_resetFault false inp)) with (cmdDown inp).
    destruct (Dbl.gtb (loadKg inp) maxLoadKg), (cmdUp inp), (cmdDown inp),
      (topLimit inp), (bottomLimit inp); simpl in Hcause; try discriminate Hcause;
      destruct (state (ctrl_of r1)); reflexivity. }
  split; [now rewrite H1|]. split.
  - apply faulted_scan. rewrite allow_reset_closed by exact Hg2.
    unfold hasFault. rewrite Hl. now destruct (Dbl.gtb _ _).
  - unfold r2. rewrite update_faults, allow_reset_closed by exact Hg2. exact Hl.
Qed.

Lemma reset_relatches_persisting_fault_witness :
  reset_gate (mkInputs true false false false true true false 0%Q)
             (mkLiftPlant 1%Q 0%Q 0%Q) = true /\
  latched (faults (ctrl_of (update dt_main
     (set_resetFault false (mkInputs true false false false true true false 0%Q))
     (ctrl_of (update dt_main (mkInputs true false false false true true false 0%Q)
                 (mkLiftController Faulted (mkFaultManager LimitViolation) true false)
                 (mkLiftPlant 1%Q 0%Q 0%Q)))
     (plant_of (update dt_main (mkInputs true false false false true true false 0%Q)
                 (mkLiftController Faulted (mkFaultManager LimitViolation) true false)
                 (mkLiftPlant 1%Q 0%Q 0%Q)))))) = LimitViolation.
Proof.
  split; [reflexivity|].
  apply (reset_relatches_persisting_fault dt_main
           (mkInputs true false false false true true false 0%Q)
           (mkLiftController Faulted (mkFaultManager LimitViolation) true false)
           (mkLiftPlant 1%Q 0%Q 0%Q)); reflexivity.
Defined.

(** * The console loop *)

Lemma cycle_poll (stdin : list Line) (s : Sim) :
  cycle stdin s
  = let i := fst (fst (console_poll stdin s)) in
    let i' := sense_limits (sim_plant s) i in
    let r := update dt_main i' (sim_ctrl s) (sim_plant s) in
    (mkSim (step dt_main (if brakeEngaged (out_of r)
                          then set_targetVel 0%Q (plant_of r) else plant_of r))
           (ctrl_of r) i' (out_of r) (snd (fst (console_poll stdin s)))
           (int_incr (inputPoll s)),
     snd (console_poll stdin s)).
Proof.
  unfold cycle, console_poll.
  destruct (inputPoll s mod 25 =? 0); [destruct stdin as [|l rest]|];
    try destruct (apply_line l _ _) as [i q];
    cbv beta iota zeta; rewrite scan_ctrl; reflexivity.
Qed.

Lemma main_loop_Forall (P : Sim -> Prop) :
  (forall stdin s, P s -> P (fst (cycle stdin s))) ->
  forall n stdin s, P s -> Forall P (main_loop n stdin s).
Proof.
  intros Hstep. induction n as [|n IH]; intros stdin s Hs; simpl.
  - constructor.
  - destruct (sim_quit s); [constructor|].
    pose proof (Hstep stdin s Hs) as H'.
    destruct (cycle stdin s) as [s' stdin']. simpl in H'.
    constructor; [exact H'|]. now apply IH.
Qed.

Lemma braked_plant (dt : Dbl.double) (inp : Inputs) (c : LiftController)
  (plant : LiftPlant) :
  let r := update dt inp c plant in
  (if brakeEngaged (out_of r) then set_targetVel 0%Q (plant_of r) else plant_of r)
  = plant_of r.
Proof.
  intros r. subst r. rewrite update_out, update_plant.
  destruct (update_block inp c plant); reflexivity.
Qed.

Lemma update_targetVel_cases (dt : Dbl.double) (inp : Inputs)
  (c : LiftController) (plant : LiftPlant) :
  let t := targetVel (plant_of (update dt inp c plant)) in
  t = 0%Q \/ t = liftSpeed \/ t = Dbl.neg lowerSpeed.
Proof.
  intros t. subst t. rewrite update_plant. cbn [targetVel].
  destruct (update_block inp c plant); simpl; auto.
Qed.

Lemma step_position_range (dt : Dbl.double) (p : LiftPlant) :
  (0 <= position (step dt p) <= 1)%Q.
Proof. unfold step. cbn [position]. apply DblFacts.clamp_bounds. lra. Qed.


(** X16: the brake enforcement of the loop never changes anything: whenever
    [update] returns with the brake engaged it has already written a zero
    target velocity, so a scan steps the plant exactly as [update] left it. *)
Theorem brake_enforcement_redundant :
  forall (i : Inputs) (c : LiftController) (plant : LiftPlant),
    let i' := sense_limits plant i in
    let r := update dt_main i' c plant in
    (brakeEngaged (out_of r) = true -> targetVel (plant_of r) = 0%Q) /\
    scan i c plant = (i', out_of r, ctrl_of r, step dt_main (plant_of r)).
Proof.
  intros i c plant i' r. split.
  - subst r. rewrite update_out, update_plant.
    destruct (update_block i' c plant); simpl; intros; congruence.
  - subst r i'. rewrite scan_ctrl. cbv zeta.
    now rewrite braked_plant.
Qed.

(** X17: a scan of the loop never powers the motor toward an end of travel
    the plant is at: the motor runs upward only from below the top switch
    point and downward only from above the bottom one. *)
Theorem scan_never_drives_into_limit :
  forall (i : Inputs) (c : LiftController) (plant : LiftPlant),
    let out := snd (fst (fst (scan i c plant))) in
    (motorDir out = 1 -> (position plant < 9999 # 10000)%Q) /\
    (motorDir out = -1 -> (1 # 10000 < position plant)%Q) /\
    ((9999 # 10000 <= position plant)%Q -> motorDir out <> 1) /\
    ((position plant <= 1 # 10000)%Q -> motorDir out <> -1).
Proof.
  intros i c plant out. subst out. rewrite scan_ctrl. cbv zeta.
  cbn [fst snd]. rewrite update_out. unfold update_block.
  set (fm := allow_reset _ _ _). clearbody fm.
  unfold next_state, select_block, sense_limits, set_limits.
  cbn [topLimit bottomLimit cmdUp cmdDown]. unfold Dbl.geb, Dbl.leb.
  destruct (DblFacts.ltb_cases (position plant) (9999 # 10000)%Q) as [[-> H1]|[-> H1]];
  destruct (DblFacts.ltb_cases (1 # 10000)%Q (position plant)) as [[-> H2]|[-> H2]];
  destruct (hasFault fm), (cmdUp i), (cmdDown i); simpl;
    repeat split; intros; try discriminate; try assumption; try lra.
Qed.

(** X18: whatever the operator types and from whatever simulation state the
    loop starts, after every iteration the plant position is within
    [0, 1]. *)
Theorem main_loop_position_in_range :
  forall (n : nat) (stdin : list Line) (s : Sim),
    Forall (fun s' => (0 <= position (sim_plant s') <= 1)%Q)
           (main_loop n stdin s).
Proof.
  induction n as [|n IH]; intros stdin s; simpl.
  - constructor.
  - destruct (sim_quit s); [constructor|].
    assert (H : (0 <= position (sim_plant (fst (cycle stdin s))) <= 1)%Q).
    { rewrite cycle_poll. cbv zeta. cbn [fst sim_plant].
      apply step_position_range. }
    destruct (cycle stdin s) as [s' stdin']. simpl in H.
    constructor; [exact H | apply IH].
Qed.

Lemma step_speed_in_range (dt : Dbl.double) (p : LiftPlant) :
  (0 <= dt)%Q -> speed_in_range p ->
  (targetVel p = 0%Q \/ targetVel p = liftSpeed
   \/ targetVel p = Dbl.neg lowerSpeed) ->
  speed_in_range (step dt p).
Proof.
  unfold speed_in_range. intros Hdt Hv Ht.
  pose proof (velocity_after_accel_cases dt p Hdt) as Hc. cbv zeta in Hc.
  pose proof (accel_dt_nonneg dt Hdt) as Ha.
  assert (Hl : (liftSpeed == 35 # 100)%Q) by reflexivity.
  assert (Hw : (lowerSpeed == 30 # 100)%Q) by reflexivity.
  assert (Ht' : (- lowerSpeed <= targetVel p <= liftSpeed)%Q).
  { destruct Ht as [-> | [-> | ->]]; unfold Dbl.neg; lra. }
  clear Ht.
  destruct (step_velocity_cases dt p) as [-> | ->]; lra.
Qed.

(** X19: the speed of the plant never leaves the commanded range: started
    with a velocity between [-lowerSpeed] and [liftSpeed], the loop keeps it
    there after every iteration, whatever the operator types. *)
Theorem main_loop_speed_in_range :
  forall (n : nat) (stdin : list Line) (s : Sim),
    speed_in_range (sim_plant s) ->
    Forall (fun s' => speed_in_range (sim_plant s')) (main_loop n stdin s).
Proof.
  intros n stdin s Hs.
  apply (main_loop_Forall (fun s' => speed_in_range (sim_plant s')));
    [|exact Hs].
  clear. intros stdin s Hs. rewrite cycle_poll. cbv zeta. cbn [fst sim_plant].
  rewrite braked_plant.
  apply step_speed_in_range.
  - discriminate.
  - unfold speed_in_range in *. now rewrite update_plant.
  - apply update_targetVel_cases.
Qed.

Lemma main_loop_speed_in_range_witness :
  speed_in_range (sim_plant Sim_default) /\
  Forall (fun s' => speed_in_range (sim_plant s'))
         (main_loop 40 [LineUp; LineEstop] Sim_default).
Proof.
  assert (H : speed_in_range (sim_plant Sim_default))
    by (split; discriminate).
  split; [exact H|].
  apply (main_loop_speed_in_range 40 [LineUp; LineEstop] Sim_default H).
Defined.

Lemma poll_cases (stdin : list Line) (s : Sim) :
  (inputPoll s mod 25 = 0 /\ exists l rest, stdin = l :: rest /\
     console_poll stdin s
     = (fst (apply_line l (set_resetFault false (sim_in s)) (sim_quit s)),
        snd (apply_line l (set_resetFault false (sim_in s)) (sim_quit s)),
        rest))
  \/ ((inputPoll s mod 25 <> 0 \/ stdin = []) /\
      console_poll stdin s
      = (set_resetFault false (sim_in s), sim_quit s, stdin)).
Proof.
  unfold console_poll.
  destruct (Z.eqb_spec (inputPoll s mod 25) 0) as [E|E].
  - destruct stdin as [|l rest].
    + right. split; [now right | reflexivity].
    + left. split; [exact E|]. exists l, rest. split; [reflexivity|].
      now destruct (apply_line l _ _).
  - right. split; [now left | reflexivity].
Qed.

(** X20: the console keeps the operator commands exclusive: whatever lines
    are typed, at most one of [cmdUp], [cmdDown] and [cmdHold] is set after
    every iteration, so the loop never presents conflicting up and down
    commands to the controller. *)
Theorem console_commands_exclusive :
  forall (n : nat) (stdin : list Line) (s : Sim),
    one_command_at_most (sim_in s) = true ->
    Forall (fun s' => one_command_at_most (sim_in s') = true
                      /\ cmdUp (sim_in s') && cmdDown (sim_in s') = false)
           (main_loop n stdin s).
Proof.
  intros n stdin s Hs.
  assert (Himp : forall i, one_command_at_most i = true ->
                   cmdUp i && cmdDown i = false).
  { intros i. unfold one_command_at_most.
    destruct (cmdUp i), (cmdDown i), (cmdHold i); simpl; congruence. }
  eapply Forall_impl;
    [|apply (main_loop_Forall (fun s' => one_command_at_most (sim_in s') = true));
      [|exact Hs]].
  - intros s' H. split; [exact H | now apply Himp].
  - clear. intros stdin s Hs. rewrite cycle_poll. cbv zeta. cbn [fst sim_in].
    assert (Hpoll : one_command_at_most (fst (fst (console_poll stdin s))) = true).
    { destruct (poll_cases stdin s) as [(_ & l & rest & _ & ->)|[_ ->]];
        cbn [fst snd]; [|exact Hs].
      destruct l as [| | | | | | |[kg|] | |]; simpl; try exact Hs; reflexivity. }
    exact Hpoll.
Qed.

Lemma console_commands_exclusive_witness :
  one_command_at_most (sim_in Sim_default) = true /\
  Forall (fun s' => one_command_at_most (sim_in s') = true
                    /\ cmdUp (sim_in s') && cmdDown (sim_in s') = false)
         (main_loop 60 [LineUp; LineDown; LineHold] Sim_default).
Proof.
  split; [reflexivity|].
  apply (console_commands_exclusive 60 [LineUp; LineDown; LineHold] Sim_default).
  reflexivity.
Defined.

(** X21: the reset input is a one-scan pulse: the controller sees
    [resetFault] on an iteration exactly when that iteration polls the
    console and the line read is the reset command; on every other iteration
    it is false, whatever it was before. *)
Theorem reset_is_one_scan_pulse :
  forall (stdin : list Line) (s : Sim),
    resetFault (sim_in (fst (cycle stdin s))) = true <->
    inputPoll s mod 25 = 0 /\ exists rest, stdin = LineReset :: rest.
Proof.
  intros stdin s. rewrite cycle_poll. cbv zeta. cbn [fst sim_in].
  change (resetFault (sense_limits (sim_plant s) (fst (fst (console_poll stdin s)))))
    with (resetFault (fst (fst (console_poll stdin s)))).
  destruct (poll_cases stdin s) as [(Hm & l & rest & -> & ->)|[Hn ->]];
    cbn [fst snd].
  - destruct l as [| | | | | | |[kg|] | |]; simpl; split;
      try discriminate; try (intros (_ & r & E); discriminate E).
    + intros _. split; [exact Hm|]. now exists rest.
    + reflexivity.
  - simpl. split; [discriminate|].
    intros (Hm & rest & E). destruct Hn as [Hn|Hn]; [contradiction|].
    rewrite Hn in E. discriminate E.
Qed.

(** X22: the console is read on every 25th iteration only: on any other
    iteration no line is consumed, the commands, the emergency stop, the load
    and [quit] stay as they were, and the poll counter, when it is below
    [INT_MAX], advances by one. *)
Theorem console_frozen_between_polls :
  forall (stdin : list Line) (s : Sim),
    inputPoll s mod 25 <> 0 ->
    inputPoll s < INT_MAX ->
    let s' := fst (cycle stdin s) in
    snd (cycle stdin s) = stdin /\
    (cmdUp (sim_in s'), cmdDown (sim_in s'), cmdHold (sim_in s'),
     estop (sim_in s'), loadKg (sim_in s'))
    = (cmdUp (sim_in s), cmdDown (sim_in s), cmdHold (sim_in s),
       estop (sim_in s), loadKg (sim_in s)) /\
    resetFault (sim_in s') = false /\
    sim_quit s' = sim_quit s /\
    inputPoll s' = inputPoll s + 1.
Proof.
  intros stdin s Hn Hmax s'. subst s'. rewrite cycle_poll. cbv zeta.
  cbn [fst snd sim_in sim_quit inputPoll].
  destruct (poll_cases stdin s) as [(Hm & _)|[_ ->]]; [contradiction|].
  repeat split; try reflexivity.
  unfold int_incr. destruct (Z.eqb_spec (inputPoll s) INT_MAX) as [E|E];
    [lia | reflexivity].
Qed.

Lemma console_frozen_between_polls_witness :
  inputPoll (mkSim LiftPlant_default LiftController_default up_inputs
                   Outputs_default false 7) mod 25 <> 0 /\
  snd (cycle [LineEstop]
         (mkSim LiftPlant_default LiftController_default up_inputs
                Outputs_default false 7)) = [LineEstop].
Proof.
  split; [discriminate|].
  apply (console_frozen_between_polls [LineEstop]
           (mkSim LiftPlant_default LiftController_default up_inputs
                  Outputs_default false 7)).
  - discriminate.
  - reflexivity.
Defined.

(** X23: typing [q] lets the iteration that reads it run to its end and
    stops the loop after it: exactly one more scan is made, however many
    iterations were still allowed and whatever lines follow; and a loop
    entered with [quit] set makes none. *)
Theorem quit_ends_loop_after_scan :
  forall (n : nat) (rest : list Line) (s : Sim),
    sim_quit s = false -> inputPoll s mod 25 = 0 ->
    main_loop (S n) (LineQuit :: rest) s = [fst (cycle (LineQuit :: rest) s)] /\
    sim_quit (fst (cycle (LineQuit :: rest) s)) = true /\
    sim_ctrl (fst (cycle (LineQuit :: rest) s))
    = ctrl_of (update dt_main
                 (sense_limits (sim_plant s) (set_resetFault false (sim_in s)))
                 (sim_ctrl s) (sim_plant s)).
Proof.
  intros n rest s Hq Hm.
  assert (Hpoll : console_poll (LineQuit :: rest) s
                  = (set_resetFault false (sim_in s), true, rest)).
  { unfold console_poll. rewrite Hm. reflexivity. }
  assert (Hquit : sim_quit (fst (cycle (LineQuit :: rest) s)) = true).
  { rewrite cycle_poll. cbv zeta. now rewrite Hpoll. }
  split; [|split].
  - simpl main_loop. rewrite Hq.
    destruct (cycle (LineQuit :: rest) s) as [s' stdin'] eqn:E.
    simpl in Hquit. cbn [fst].
    destruct n; simpl; [reflexivity|]. now rewrite Hquit.
  - exact Hquit.
  - rewrite cycle_poll. cbv zeta. now rewrite Hpoll.
Qed.

Lemma quit_ends_loop_after_scan_witness :
  sim_quit Sim_default = false /\
  length (main_loop 100 [LineQuit; LineUp] Sim_default) = 1%nat.
Proof.
  split; [reflexivity|].
  destruct (quit_ends_loop_after_scan 99 [LineUp] Sim_default eq_refl eq_refl)
    as [E _].
  rewrite E. reflexivity.
Defined.

Lemma cycle_faulted_no_reset :
  forall (stdin : list Line) (s : Sim),
    hasFault (faults (sim_ctrl s)) = true ->
    ~ (inputPoll s mod 25 = 0 /\ exists rest, stdin = LineReset :: rest) ->
    let s' := fst (cycle stdin s) in
    state (sim_ctrl s') = Faulted /\
    faultPriority (latched (faults (sim_ctrl s)))
      <= faultPriority (latched (faults (sim_ctrl s'))) /\
    sim_out s' = mkOutputs false 0 true true /\
    targetVel (sim_plant s') = 0%Q.
Proof.
  intros stdin s Hf Hnr s'.
  assert (Hrf : resetFault (sim_in s') = false).
  { destruct (resetFault (sim_in s')) eqn:E; [|reflexivity].
    exfalso. apply Hnr.
    destruct (poll_cases stdin s) as [(Hm & l & rest & -> & Hp)|[Hn Hp]];
      unfold s' in E; rewrite cycle_poll in E; cbv zeta in E;
      cbn [fst sim_in] in E; rewrite Hp in E; cbn [fst snd] in E.
    - split; [exact Hm|]. exists rest.
      destruct l as [| | | | | | |[kg|] | |]; simpl in E;
        try discriminate E; reflexivity.
    - simpl in E. discriminate E. }
  subst s'. revert Hrf. rewrite cycle_poll. cbv zeta.
  cbn [fst sim_in sim_ctrl sim_out sim_plant].
  set (i' := sense_limits (sim_plant s) _). intros Hrf.
  assert (Hg : reset_gate i' (sim_plant s) = false)
    by (unfold reset_gate; now rewrite Hrf).
  assert (Hmono := latch_faults_monotone i' (sim_ctrl s)).
  assert (Hr : faulted_result (update dt_main i' (sim_ctrl s) (sim_plant s))).
  { apply faulted_scan. rewrite allow_reset_closed by exact Hg.
    apply hasFault_priority. apply hasFault_priority in Hf. lia. }
  rewrite braked_plant.
  destruct Hr as (H1 & H2 & H3 & H4 & H5 & H6 & H7).
  split; [exact H1|]. split.
  - rewrite update_faults, allow_reset_closed by exact Hg. exact Hmono.
  - split; [|exact H7].
    destruct (out_of _) as [me md be fl]. simpl in *. congruence.
Qed.


(** X24: at the console a latched fault survives every iteration that does
    not read the reset command: the iteration ends [Faulted] with the motor
    off, the brake engaged and the lamp lit, a fault still latched of at
    least the same priority, and the plant stepped toward a zero target. *)
Theorem console_fault_persists :
  forall (stdin : list Line) (s : Sim),
    hasFault (faults (sim_ctrl s)) = true ->
    ~ (inputPoll s mod 25 = 0 /\ exists rest, stdin = LineReset :: rest) ->
    let s' := fst (cycle stdin s) in
    state (sim_ctrl s') = Faulted /\
    faultPriority (latched (faults (sim_ctrl s)))
      <= faultPriority (latched (faults (sim_ctrl s'))) /\
    sim_out s' = mkOutputs false 0 true true /\
    targetVel (sim_plant s') = 0%Q.
Proof. exact cycle_faulted_no_reset. Qed.

Lemma console_fault_persists_witness :
  hasFault (faults (mkLiftController Faulted (mkFaultManager Overload)
                                     false true)) = true /\
  state (sim_ctrl (fst (cycle [LineUp]
     (mkSim LiftPlant_default
            (mkLiftController Faulted (mkFaultManager Overload) false true)
            Inputs_default Outputs_default false 0)))) = Faulted.
Proof.
  split; [reflexivity|].
  apply (console_fault_persists [LineUp]
     (mkSim LiftPlant_default
            (mkLiftController Faulted (mkFaultManager Overload) false true)
            Inputs_default Outputs_default false 0)).
  - reflexivity.
  - intros (_ & rest & E). discriminate E.
Defined.

Lemma poll_reads (l : Line) (rest : list Line) (s : Sim) :
  inputPoll s mod 25 = 0 ->
  console_poll (l :: rest) s
  = (fst (apply_line l (set_resetFault false (sim_in s)) (sim_quit s)),
     snd (apply_line l (set_resetFault false (sim_in s)) (sim_quit s)),
     rest).
Proof.
  intros Hm. unfold console_poll. rewrite Hm. simpl.
  now destruct (apply_line l _ _).
Qed.

(** X28: the stop and hold keys act on the scan that reads them: whatever
    was commanded before and whatever the controller state, that iteration
    returns with the motor off and the brake engaged and steps the plant
    toward a zero target. *)
Theorem stop_key_brakes :
  forall (l : Line) (rest : list Line) (s : Sim),
    inputPoll s mod 25 = 0 -> l = LineStop \/ l = LineHold ->
    let s' := fst (cycle (l :: rest) s) in
    cmdUp (sim_in s') = false /\ cmdDown (sim_in s') = false /\
    motorEnable (sim_out s') = false /\
    motorDir (sim_out s') = 0 /\
    brakeEngaged (sim_out s') = true /\
    targetVel (sim_plant s') = 0%Q.
Proof.
  intros l rest s Hm Hl s'. subst s'. rewrite cycle_poll. cbv zeta.
  rewrite (poll_reads l rest s Hm).
  cbn [fst snd sim_in sim_out sim_plant].
  rewrite braked_plant.
  set (i := fst (apply_line l _ _)).
  assert (Hup : cmdUp (sense_limits (sim_plant s) i) = false)
    by (subst i; destruct Hl as [-> | ->]; reflexivity).
  assert (Hdown : cmdDown (sense_limits (sim_plant s) i) = false)
    by (subst i; destruct Hl as [-> | ->]; reflexivity).
  set (i' := sense_limits (sim_plant s) i) in *. clearbody i'. clear i.
  change (targetVel (step dt_main ?p)) with (targetVel p).
  rewrite update_out, update_plant. unfold update_block.
  set (fm := allow_reset _ _ _). clearbody fm.
  unfold next_state, select_block. rewrite Hup, Hdown.
  destruct (hasFault fm); simpl; repeat split; reflexivity.
Qed.

Lemma stop_key_brakes_witness :
  inputPoll Sim_default mod 25 = 0 /\
  brakeEngaged (sim_out (fst (cycle [LineStop] Sim_default))) = true.
Proof.
  split; [reflexivity|].
  apply (stop_key_brakes LineStop [] Sim_default eq_refl (or_introl eq_refl)).
Defined.

(** X29: pressing the emergency-stop key while it is released trips the
    controller on the scan that reads it: EmergencyStop is latched, the state
    is [Faulted], the motor is off, the brake engaged and the lamp lit,
    whatever else is latched or commanded. *)
Theorem estop_key_trips :
  forall (rest : list Line) (s : Sim),
    inputPoll s mod 25 = 0 -> estop (sim_in s) = false ->
    let s' := fst (cycle (LineEstop :: rest) s) in
    estop (sim_in s') = true /\
    latched (faults (sim_ctrl s')) = EmergencyStop /\
    state (sim_ctrl s') = Faulted /\
    sim_out s' = mkOutputs false 0 true true /\
    targetVel (sim_plant s') = 0%Q.
Proof.
  intros rest s Hm He s'. subst s'. rewrite cycle_poll. cbv zeta.
  rewrite (poll_reads LineEstop rest s Hm).
  cbn [fst snd sim_in sim_out sim_plant sim_ctrl apply_line].
  rewrite braked_plant.
  set (i' := sense_limits (sim_plant s) _).
  assert (Hes : estop i' = true) by (subst i'; simpl; now rewrite He).
  assert (Hg : reset_gate i' (sim_plant s) = false).
  { unfold reset_gate. rewrite Hes. now destruct (resetFault i'). }
  assert (Hl : latched (latch_faults (sim_ctrl s) i') = EmergencyStop).
  { apply priority_injective. rewrite latch_faults_priority, Hes.
    change (faultPriority EmergencyStop) with 30.
    destruct (limit_condition _ _), (Dbl.gtb _ _), (latched (faults (sim_ctrl s)));
      reflexivity. }
  assert (Hr : faulted_result (update dt_main i' (sim_ctrl s) (sim_plant s))).
  { apply faulted_scan. rewrite allow_reset_closed by exact Hg.
    unfold hasFault. now rewrite Hl. }
  destruct Hr as (H1 & H2 & H3 & H4 & H5 & H6 & H7).
  split; [exact Hes|]. split.
  - rewrite update_faults, allow_reset_closed by exact Hg. exact Hl.
  - split; [exact H1|]. split; [|exact H7].
    destruct (out_of _) as [me md be fl]. simpl in *. congruence.
Qed.

Lemma estop_key_trips_witness :
  inputPoll Sim_default mod 25 = 0 /\
  latched (faults (sim_ctrl (fst (cycle [LineEstop] Sim_default))))
  = EmergencyStop.
Proof.
  split; [reflexivity|].
  apply (estop_key_trips [] Sim_default eq_refl eq_refl).
Defined.



(** * Names *)

(** X27: the names printed for faults and states identify them: different
    fault codes have different names, different states have different names,
    and no enumerator is printed as Unknown. *)
Theorem names_identify :
  (forall f g : FaultCode,
      Names.faultToString f = Names.faultToString g -> f = g) /\
  (forall s t : LiftState,
      Names.stateToString s = Names.stateToString t -> s = t) /\
  (forall f : FaultCode, Names.faultToString f <> Names.unknown) /\
  (forall s : LiftState, Names.stateToString s <> Names.unknown).
Proof.
  repeat split.
  - intros f g; destruct f, g; simpl; intros H; try reflexivity; discriminate H.
  - intros s t; destruct s, t; simpl; intros H; try reflexivity; discriminate H.
  - intros f; destruct f; discriminate.
  - intros s; destruct s; discriminate.
Qed.
